(** * obsidian_note_chat: the transcript state machine

    A shallow embedding of [obsidian_note_chat.py]: the file-to-turns parser,
    the turn filter, and the placeholder insert / resolve rewrites of the note
    file, together with the driver [process_markdown] and [main].

    Python [str] values are sequences of Unicode code points; they are
    modelled as [list N].  The built-in string methods the script uses
    ([strip], [split], [replace], [join], [in]) are given executable
    definitions first, then the functions of the script, then the theorems. *)

From Stdlib Require Import Strings.String Strings.Ascii.
From Stdlib Require Import List NArith Arith Bool Lia.
Import ListNotations.

(** ** Python strings *)

Module PyStr.

(** A code point and a Python [str]. *)
Definition char := N.
Definition text := list char.

(** A string literal of the script (ASCII only). *)
Definition str (s : string) : text :=
  map N_of_ascii (list_ascii_of_string s).
Arguments str _%_string.

Definition char_eqb (a b : char) : bool := N.eqb a b.

Fixpoint text_eqb (a b : text) : bool :=
  match a, b with
  | [], [] => true
  | x :: a', y :: b' => char_eqb x y && text_eqb a' b'
  | _, _ => false
  end.

(** [str.isspace] on one code point: the characters removed by [strip()]
    with no argument. *)
Definition is_space (c : char) : bool :=
  ((9 <=? c) && (c <=? 13) || (28 <=? c) && (c <=? 32)
   || (c =? 133) || (c =? 160) || (c =? 5760)
   || (8192 <=? c) && (c <=? 8202)
   || (c =? 8232) || (c =? 8233) || (c =? 8239) || (c =? 8287)
   || (c =? 12288))%N.

Fixpoint lstrip (s : text) : text :=
  match s with
  | [] => []
  | c :: s' => if is_space c then lstrip s' else s
  end.

Definition rstrip (s : text) : text := rev (lstrip (rev s)).

(** [s.strip()] *)
Definition strip (s : text) : text := rstrip (lstrip s).

(** [s.isspace()] or [s == ""]: nothing but white space. *)
Definition all_space (w : text) : bool := forallb is_space w.

(** [not s.strip()] *)
Definition blank (s : text) : bool :=
  match strip s with [] => true | _ :: _ => false end.

(** [s.startswith(p)], returning what follows the prefix. *)
Fixpoint strip_prefix (p s : text) : option text :=
  match p, s with
  | [], _ => Some s
  | _ :: _, [] => None
  | a :: p', b :: s' => if char_eqb a b then strip_prefix p' s' else None
  end.

(** [s.partition(sep)] when [sep] occurs in [s]: the text before the
    leftmost occurrence and the text after it. *)
Fixpoint find (sep s : text) : option (text * text) :=
  match strip_prefix sep s with
  | Some rest => Some ([], rest)
  | None =>
      match s with
      | [] => None
      | c :: s' =>
          match find sep s' with
          | Some (u, v) => Some (c :: u, v)
          | None => None
          end
      end
  end.

(** [sep in s] *)
Definition contains (sep s : text) : bool :=
  match find sep s with Some _ => true | None => false end.

(** [s.split(sep)] scans left to right and cuts at each occurrence of [sep]
    that does not overlap the previous one.  The scan is bounded by the length
    of [s]; every call site passes a nonempty literal separator (Python raises
    [ValueError] on an empty one), for which the bound is never reached
    (lemma [split_eqn]). *)
Fixpoint split_fuel (fuel : nat) (sep s : text) : list text :=
  match fuel with
  | O => [s]
  | S n =>
      match find sep s with
      | None => [s]
      | Some (u, v) => u :: split_fuel n sep v
      end
  end.

Definition split (s sep : text) : list text := split_fuel (length s) sep s.

(** [s.replace(old, new)]: every non-overlapping occurrence, left to right. *)
Fixpoint replace_fuel (fuel : nat) (old new s : text) : text :=
  match fuel with
  | O => s
  | S n =>
      match find old s with
      | None => s
      | Some (u, v) => u ++ new ++ replace_fuel n old new v
      end
  end.

Definition replace (s old new : text) : text :=
  replace_fuel (length s) old new s.

(** [sep.join(parts)] *)
Fixpoint join (sep : text) (parts : list text) : text :=
  match parts with
  | [] => []
  | [p] => p
  | p :: ps => p ++ sep ++ join sep ps
  end.

End PyStr.

Import PyStr.

(** ** Messages and the turn filter *)

Inductive Role := user | assistant.

(** The dict [{"role": ..., "content": ...}]. *)
Record message := Message { role : Role; content : text }.

(** The line feed, and the string ["\n"]. *)
Definition LF : char := 10%N.
Definition nl : text := [LF].

(** The carriage return. *)
Definition CR : char := 13%N.

(** The literal list ['cc', 'c0', ..., 'c7'] of lines 12 and 65. *)
Definition control_markers : list text :=
  [str "cc"; str "c0"; str "c1"; str "c2"; str "c3"; str "c4"; str "c5";
   str "c6"; str "c7"].

(** [x in l] for a list of strings. *)
Definition in_list (x : text) (l : list text) : bool := existsb (text_eqb x) l.

Definition filter_messages (messages : list message) : list message :=
  filter (fun msg => negb (in_list (strip (content msg)) control_markers))
         messages.

(** ** The parser *)

Definition delimiter : text := str "---".

(** ["user" if i % 2 == 0 else "assistant"] *)
Definition role_of_index (i : nat) : Role :=
  if Nat.eqb (i mod 2) 0 then user else assistant.

(** The loop of lines 28-31 over [enumerate(blocks)], started at index [i]. *)
Fixpoint block_messages (i : nat) (blocks : list text) : list message :=
  match blocks with
  | [] => []
  | block :: rest =>
      match strip block with
      | [] => block_messages (S i) rest
      | _ :: _ => Message (role_of_index i) (strip block)
                  :: block_messages (S i) rest
      end
  end.

(** Lines 21-34: the messages of a file content. *)
Definition parse_content (content : text) : list message :=
  let blocks := split content delimiter in
  if Nat.eqb (length blocks) 1
  then [Message user (strip content)]
  else block_messages 0 blocks.

(** ** Files, exceptions and the state monad of the driver *)

Definition path := text.

(** What the file system holds at a path, as far as [open] can tell:
    nothing that can be read, a file that can only be read, or a file that
    can be read and written.  [data] is the stored text, before the
    translation of line ends that reading applies. *)
Inductive file :=
| Missing
| ReadOnly (data : text)
| ReadWrite (data : text).

Inductive exn :=
| FileNotFoundError (p : path)
| PermissionError (p : path)
| ClientError (msg : text).

(** [str(e)]; the file name is shown between quotes as [repr] does for a
    path without quotes or escapes. *)
Definition exn_str (e : exn) : text :=
  match e with
  | FileNotFoundError p =>
      str "[Errno 2] No such file or directory: '" ++ p ++ str "'"
  | PermissionError p => str "[Errno 13] Permission denied: '" ++ p ++ str "'"
  | ClientError msg => msg
  end.

Inductive fs_event :=
| Truncate (p : path)
| Write (p : path) (data : text).

Inductive out_event :=
| LogInfo (line : text)
| LogError (line : text)
| Print (line : text).

Record world := World {
  files : path -> file;
  journal : list fs_event;    (* file mutations, oldest first *)
  console : list out_event    (* lines emitted by [main], oldest first *)
}.

Inductive result (A : Type) :=
| Return (a : A)
| Raise (e : exn).
Arguments Return {A} a.
Arguments Raise {A} e.

Definition M (A : Type) : Type := world -> result A * world.

Definition ret {A} (a : A) : M A := fun w => (Return a, w).
Definition raise {A} (e : exn) : M A := fun w => (Raise e, w).
Definition bind {A B} (m : M A) (k : A -> M B) : M B :=
  fun w => match m w with
           | (Return a, w') => k a w'
           | (Raise e, w') => (Raise e, w')
           end.
(** [try: m  except Exception as e: h e] *)
Definition try_except {A} (m : M A) (h : exn -> M A) : M A :=
  fun w => match m w with
           | (Return a, w') => (Return a, w')
           | (Raise e, w') => h e w'
           end.

Notation "x <- m ;; k" := (bind m (fun x => k))
  (at level 61, m at next level, right associativity).
Notation "m ;;; k" := (bind m (fun _ => k))
  (at level 61, right associativity).

Definition set_file (p : path) (f : file) (fs : path -> file) : path -> file :=
  fun q => if text_eqb q p then f else fs q.

(** What [read()] returns for the stored text [s].  The files are opened
    in text mode with the default [newline=None] (universal newlines): a
    carriage return followed by a line feed, and a carriage return alone,
    are read as one line feed. *)
Fixpoint universal_newlines (s : text) : text :=
  match s with
  | [] => []
  | c :: s' =>
      if char_eqb c CR then
        LF :: match s' with
              | d :: s'' => if char_eqb d LF then universal_newlines s''
                            else universal_newlines s'
              | [] => universal_newlines s'
              end
      else c :: universal_newlines s'
  end.

(** A text without carriage return: it reads back as it was written. *)
Definition no_CR (s : text) : bool :=
  forallb (fun c => negb (char_eqb c CR)) s.

(** [open(p, 'r')] followed by [read()]. *)
Definition read_r (p : path) : M text :=
  fun w => match files w p with
           | Missing => (Raise (FileNotFoundError p), w)
           | ReadOnly d | ReadWrite d => (Return (universal_newlines d), w)
           end.

(** [open(p, 'r+')] followed by [read()]. *)
Definition read_rw (p : path) : M text :=
  fun w => match files w p with
           | Missing => (Raise (FileNotFoundError p), w)
           | ReadOnly _ => (Raise (PermissionError p), w)
           | ReadWrite d => (Return (universal_newlines d), w)
           end.

(** [file.seek(0); file.truncate()] on a file opened with ['r+']. *)
Definition truncate (p : path) : M unit :=
  fun w => (Return tt,
            World (set_file p (ReadWrite []) (files w))
                  (journal w ++ [Truncate p]) (console w)).

(** [file.write(data)] at the end of a file opened with ['r+'].  The text
    is stored as given: the line separator of the platform is taken to be
    the line feed, so that a written line feed is not translated, and the
    text to be one that UTF-8 encodes. *)
Definition write (p : path) (data : text) : M unit :=
  fun w => match files w p with
           | ReadWrite d =>
               (Return tt,
                World (set_file p (ReadWrite (d ++ data)) (files w))
                      (journal w ++ [Write p data]) (console w))
           | _ => (Raise (PermissionError p), w)
           end.

Definition emit (e : out_event) : M unit :=
  fun w => (Return tt, World (files w) (journal w) (console w ++ [e])).

(** Lines 15-37.  Any exception of the [try] block yields [None]. *)
Definition parse_markdown_file (file_path : path) : M (option (list message)) :=
  try_except
    (content <- read_r file_path ;;
     ret (Some (parse_content content)))
    (fun _ => ret None).

(** ** The placeholder rewrites of [process_markdown] *)

(** The text written at line 69. *)
Definition placeholder (model : text) : text :=
  nl ++ nl ++ str "---" ++ nl ++ nl ++ str "Calling " ++ model ++ str "..."
     ++ nl.

(** The text searched for at lines 92 and 103. *)
Definition marker (model : text) : text :=
  nl ++ nl ++ str "---" ++ nl ++ nl ++ str "Calling " ++ model ++ str "...".

(** The text written at line 93. *)
Definition response_block (response : text) : text :=
  nl ++ nl ++ str "---" ++ nl ++ nl ++ response ++ nl ++ nl ++ str "---"
     ++ nl ++ nl.

(** The text written at line 105. *)
Definition error_block (err : text) : text :=
  nl ++ nl ++ str "---" ++ nl ++ nl ++ str "Error: " ++ err ++ nl ++ nl
     ++ str "---" ++ nl ++ nl.

(** Lines 64-65: the content without its control lines. *)
Definition scrub_lines (content : text) : text :=
  let content_lines := split (strip content) nl in
  join nl (filter (fun line => negb (in_list (strip line) control_markers))
                  content_lines).

(** Lines 62-69. *)
Definition insert (file_path : path) (model : text) : M unit :=
  content <- read_rw file_path ;;
  let content := scrub_lines content in
  truncate file_path ;;;
  write file_path content ;;;
  write file_path (placeholder model).

(** Lines 88-93. *)
Definition resolveSuccess (file_path : path) (model response : text) : M unit :=
  content <- read_rw file_path ;;
  let content := strip content in
  truncate file_path ;;;
  write file_path (replace content (marker model) []) ;;;
  write file_path (response_block response).

(** Lines 99-105. *)
Definition resolveFailure (file_path : path) (model err : text) : M unit :=
  content <- read_rw file_path ;;
  let content := strip content in
  truncate file_path ;;;
  let content := replace content (marker model) [] in
  write file_path content ;;;
  write file_path (error_block err).

(** The file content each rewrite leaves behind, as a function of the
    content it read. *)
Definition insert_text (content model : text) : text :=
  scrub_lines content ++ placeholder model.

Definition resolveSuccess_text (content model response : text) : text :=
  replace (strip content) (marker model) [] ++ response_block response.

Definition resolveFailure_text (content model err : text) : text :=
  replace (strip content) (marker model) [] ++ error_block err.

(** ** The driver *)

(** The collaborator of [chat_api]: an instance answers [send_message] with a
    response text or raises. *)
Record ChatClient := {
  send_message : list message -> text -> N -> text -> result text
}.

Definition default_model : text := str "claude-3-7-sonnet-latest".

Definition system_message : text :=
  str "You help with whatever is asked to the best of your ability.".

(** Lines 58-59: [None] and the empty string are false. *)
Definition model_or_default (model : option text) : text :=
  match model with
  | None | Some [] => default_model
  | Some m => m
  end.

(** Lines 48-107.  [ChatAPI] is the outcome of the constructor call of
    line 72, which is outside the [try]. *)
Definition process_markdown (ChatAPI : result ChatClient)
    (file_path : path) (model : option text) : M (option text) :=
  messages <- parse_markdown_file file_path ;;
  match messages with
  | None => ret None
  | Some messages =>
      let messages := filter_messages messages in
      let model := model_or_default model in
      insert file_path model ;;;
      chat <- (fun w => (ChatAPI, w)) ;;
      try_except
        (response <- (fun w => (send_message chat messages model 2000
                                             system_message, w)) ;;
         resolveSuccess file_path model response ;;;
         ret (Some response))
        (fun e =>
           resolveFailure file_path model (exn_str e) ;;;
           ret None)
  end.

(** How the process ends. *)
Inductive termination :=
| Finished                       (* [main] returned *)
| SysExit (status : N)           (* [sys.exit(status)] *)
| Uncaught (e : exn).            (* an exception left [main] *)

(** Truth value of [result] at line 126: [None] and the empty string are
    false. *)
Definition truthy (r : option text) : bool :=
  match r with
  | None | Some [] => false
  | Some (_ :: _) => true
  end.

(** Lines 109-130; [argv] is [sys.argv]. *)
Definition main (ChatAPI : result ChatClient) (argv : list text)
  : world -> termination * world :=
  fun w =>
    let (_, w) := emit (LogInfo (str "Starting chat_with_note script")) w in
    if (length argv <? 2) || (3 <? length argv) then
      let (_, w) := emit (LogError (str "Invalid number of arguments")) w in
      let (_, w) :=
        emit (LogError
          (str "Usage: python script_name.py <path_to_markdown_file> [model]"))
          w in
      (SysExit 1, w)
    else
      let file_path := nth 1 argv [] in
      let (_, w) := emit (LogInfo (str "Processing file: " ++ file_path)) w in
      let run :=
        if Nat.eqb (length argv) 3 then
          let model := nth 2 argv [] in
          emit (LogInfo (str "Using specified model: " ++ model)) ;;;
          process_markdown ChatAPI file_path (Some model)
        else
          emit (LogInfo (str "Using default model")) ;;;
          process_markdown ChatAPI file_path None in
      match run w with
      | (Raise e, w) => (Uncaught e, w)
      | (Return result, w) =>
          if truthy result then
            let (_, w) :=
              emit (LogInfo (str "Response added to the file successfully."))
                   w in
            let (_, w) :=
              emit (Print (str "Response added to the file successfully."))
                   w in
            (Finished, w)
          else
            let (_, w) :=
              emit (LogError (str "Failed to process markdown file.")) w in
            (Finished, w)
      end.

(** ** The random phrase *)

(** The line boundaries of [str.splitlines]. *)
Definition is_linebreak (c : char) : bool :=
  ((10 <=? c) && (c <=? 13) || (28 <=? c) && (c <=? 30)
   || (c =? 133) || (c =? 8232) || (c =? 8233))%N.

(** [s.splitlines()]: the lines without their boundaries; a carriage return
    followed by a line feed is one boundary, and there is no empty last line
    after a final boundary. *)
Fixpoint splitlines (s : text) : list text :=
  match s with
  | [] => []
  | c :: s' =>
      if is_linebreak c then
        [] :: (if char_eqb c 13%N then
                 match s' with
                 | d :: s'' => if char_eqb d 10%N then splitlines s''
                               else splitlines s'
                 | [] => splitlines s'
                 end
               else splitlines s')
      else
        match splitlines s' with
        | [] => [[c]]
        | line :: lines => (c :: line) :: lines
        end
  end.

(** A text with no line boundary in it. *)
Definition unbroken (l : text) : bool :=
  forallb (fun c => negb (is_linebreak c)) l.

(** How a call of [get_random_phrase] ends: the exceptions of [exn], and the
    [ValueError] of [random.sample]. *)
Inductive outcome (A : Type) :=
| Returned (a : A)
| Raised (e : exn)
| RaisedValueError (msg : text).
Arguments Returned {A} a.
Arguments Raised {A} e.
Arguments RaisedValueError {A} msg.

Definition default_phrases : path := str "obsidian_note_chat_phrases.txt".

(** Lines 39-46.  [locate file_path] is the path
    [os.path.join(os.path.dirname(os.path.abspath(__file__)), file_path)],
    and [randbelow n] the index below [n] that [random.sample] draws for a
    sample of one.  Nothing is caught. *)
Definition get_random_phrase (locate : path -> path) (randbelow : nat -> nat)
    (file_path : option path) : world -> outcome text * world :=
  fun w =>
    let file_path := match file_path with
                     | None => default_phrases
                     | Some p => p
                     end in
    let file_path := locate file_path in
    match read_r file_path w with
    | (Raise e, w) => (Raised e, w)
    | (Return data, w) =>
        let phrases := splitlines data in
        match phrases with
        | [] => (RaisedValueError
                   (str "Sample larger than population or is negative"), w)
        | _ :: _ => (Returned (nth (randbelow (length phrases)) phrases []), w)
        end
    end.

(** ** Vocabulary of the statements *)

(** What a run of [m] from [w] does to the file at [p]: it returns normally,
    leaves [data] there, leaves every other path and the console alone, and
    adds [events] to the journal. *)
Definition rewrites {A} (m : M A) (w : world) (p : path) (a : A)
    (data : text) (events : list fs_event) : Prop :=
  exists w', m w = (Return a, w')
             /\ files w' p = ReadWrite data
             /\ (forall q, text_eqb q p = false -> files w' q = files w q)
             /\ journal w' = journal w ++ events
             /\ console w' = console w.

(** A world with one file, [note.md], nothing written or printed yet. *)
Definition note_world (f : file) : world :=
  World (fun q => if text_eqb q (str "note.md") then f else Missing) [] [].

(** A client whose [send_message] always raises, and one that always
    answers [response]. *)
Definition failing_client (msg : text) : ChatClient :=
  {| send_message := fun _ _ _ _ => Raise (ClientError msg) |}.

Definition answering_client (response : text) : ChatClient :=
  {| send_message := fun _ _ _ _ => Return response |}.

(** The command line [script file_path [model]] and the line [main] logs
    about the model. *)
Definition argv_for (script : text) (file_path : path) (model : option text)
  : list text :=
  script :: file_path :: match model with None => [] | Some m => [m] end.

Definition model_line (model : option text) : out_event :=
  match model with
  | None => LogInfo (str "Using default model")
  | Some m => LogInfo (str "Using specified model: " ++ m)
  end.

(** The lines [main] logs before it calls [process_markdown]. *)
Definition preamble (file_path : path) (model : option text)
  : list out_event :=
  [LogInfo (str "Starting chat_with_note script");
   LogInfo (str "Processing file: " ++ file_path);
   model_line model].

Definition success_line : text :=
  str "Response added to the file successfully.".

Definition failure_line : text := str "Failed to process markdown file.".

(** The world after [lines] were emitted. *)
Definition log (w : world) (lines : list out_event) : world :=
  World (files w) (journal w) (console w ++ lines).

(** A text with neither line feed nor carriage return (a text of one
    line, which reads back as it was written). *)
Definition single_line (s : text) : bool :=
  forallb (fun c => negb (char_eqb c LF || char_eqb c CR)) s.

(** * Facts about the string methods *)

Section StringFacts.

Lemma char_eqb_eq (a b : char) : char_eqb a b = true <-> a = b.
Proof. apply N.eqb_eq. Qed.

Lemma text_eqb_eq (a b : text) : text_eqb a b = true <-> a = b.
Proof.
  revert b; induction a as [|x a IH]; intros [|y b]; simpl;
    try (split; [discriminate | congruence]); try tauto.
  rewrite andb_true_iff, char_eqb_eq, IH.
  split; [intros [-> ->]; reflexivity | intros [= -> ->]; auto].
Qed.

Lemma text_eqb_refl (a : text) : text_eqb a a = true.
Proof. apply text_eqb_eq; reflexivity. Qed.

Lemma in_list_In (x : text) (l : list text) : in_list x l = true <-> In x l.
Proof.
  unfold in_list. rewrite existsb_exists. split.
  - intros (y & Hy & E). apply text_eqb_eq in E. subst; assumption.
  - intros H. exists x. split; [assumption | apply text_eqb_refl].
Qed.

(** ** Prefixes and the leftmost occurrence *)

Lemma strip_prefix_Some (p s r : text) :
  strip_prefix p s = Some r <-> s = p ++ r.
Proof.
  revert s; induction p as [|a p IH]; intros s; simpl.
  - split; [intros [= ->] | intros ->]; reflexivity.
  - destruct s as [|b s]; [split; discriminate|].
    destruct (char_eqb a b) eqn:E.
    + apply char_eqb_eq in E; subst b. rewrite IH.
      split; [intros -> | intros [= ->]]; reflexivity.
    + split; [discriminate|]. intros [= -> _].
      rewrite (proj2 (char_eqb_eq a a) eq_refl) in E. discriminate.
Qed.

Lemma strip_prefix_app (p r : text) : strip_prefix p (p ++ r) = Some r.
Proof. apply strip_prefix_Some; reflexivity. Qed.

Lemma find_Some (sep s u v : text) :
  find sep s = Some (u, v) -> s = u ++ sep ++ v.
Proof.
  revert u v; induction s as [|c s IH]; intros u v; simpl.
  - destruct (strip_prefix sep []) eqn:E; [|discriminate].
    intros [= <- <-]. apply strip_prefix_Some in E. exact E.
  - destruct (strip_prefix sep (c :: s)) eqn:E.
    + intros [= <- <-]. apply strip_prefix_Some in E. exact E.
    + destruct (find sep s) as [[u' v']|]; [|discriminate].
      intros [= <- <-]. simpl. f_equal. apply IH; reflexivity.
Qed.

(** No occurrence starts inside the part before the leftmost one. *)
Lemma find_leftmost (sep s u v : text) :
  find sep s = Some (u, v) ->
  forall a b, u = a ++ b -> b <> [] -> strip_prefix sep (b ++ sep ++ v) = None.
Proof.
  revert u v; induction s as [|c s IH]; intros u v; simpl.
  - destruct (strip_prefix sep []); [|discriminate].
    intros [= <- <-] [|] b E Hb; simpl in E; try discriminate.
    subst b; congruence.
  - destruct (strip_prefix sep (c :: s)) eqn:E.
    + intros [= <- <-] [|] b E' Hb; simpl in E'; try discriminate.
      subst b; congruence.
    + destruct (find sep s) as [[u' v']|] eqn:F; [|discriminate].
      intros [= <- <-] a b E' Hb.
      pose proof (find_Some _ _ _ _ F) as Hs.
      destruct a as [|a0 a]; simpl in E'.
      * subst b. simpl. rewrite <- Hs. exact E.
      * injection E' as -> ->. eapply IH; eauto.
Qed.

Lemma find_None (sep s : text) :
  find sep s = None -> forall u v, s <> u ++ sep ++ v.
Proof.
  induction s as [|c s IH]; simpl.
  - destruct (strip_prefix sep []) eqn:E; [discriminate|].
    intros _ [|] v H.
    + simpl in H. rewrite H, strip_prefix_app in E. discriminate.
    + discriminate.
  - destruct (strip_prefix sep (c :: s)) eqn:E; [discriminate|].
    destruct (find sep s) as [[u' v']|] eqn:F; [discriminate|].
    intros _ [|a u] v H.
    + simpl in H. rewrite H, strip_prefix_app in E. discriminate.
    + injection H as _ H. exact (IH eq_refl u v H).
Qed.

Lemma find_None_iff (sep s : text) :
  find sep s = None <-> forall u v, s <> u ++ sep ++ v.
Proof.
  split; [apply find_None|].
  intros H. destruct (find sep s) as [[u v]|] eqn:F; [|reflexivity].
  exfalso. exact (H u v (find_Some _ _ _ _ F)).
Qed.

Lemma contains_false (sep s : text) :
  contains sep s = false <-> forall u v, s <> u ++ sep ++ v.
Proof.
  unfold contains. rewrite <- find_None_iff.
  destruct (find sep s); split; congruence.
Qed.

(** A text without [sep] has no part with [sep]. *)
Lemma contains_false_part (sep a s b : text) :
  contains sep (a ++ s ++ b) = false -> contains sep s = false.
Proof.
  rewrite !contains_false. intros H u v ->.
  apply (H (a ++ u) (v ++ b)). now rewrite <- !app_assoc.
Qed.

Lemma find_length (sep s u v : text) :
  find sep s = Some (u, v) -> length s = length u + length sep + length v.
Proof.
  intros H. apply find_Some in H. subst s. rewrite !length_app. lia.
Qed.

(** ** [split], [replace] and [join] *)

Lemma split_fuel_enough (sep : text) (Hsep : sep <> []) (n m : nat) (s : text) :
  length s <= n -> length s <= m -> split_fuel n sep s = split_fuel m sep s.
Proof.
  revert m s; induction n as [|n IH]; intros m s Hn Hm.
  - destruct s; [|simpl in Hn; lia]. destruct m; cbn [split_fuel replace_fuel]; [reflexivity|].
    destruct (find sep []) as [[u v]|] eqn:F; [|reflexivity].
    apply find_length in F. destruct sep; [congruence | simpl in F; lia].
  - cbn [split_fuel replace_fuel]. destruct (find sep s) as [[u v]|] eqn:F.
    + pose proof (find_length _ _ _ _ F) as L.
      assert (0 < length sep) by (destruct sep; [congruence | simpl; lia]).
      destruct m as [|m]; [lia|]. cbn [split_fuel replace_fuel]. rewrite F. f_equal.
      apply IH; lia.
    + destruct m; cbn [split_fuel replace_fuel]; [reflexivity | rewrite F; reflexivity].
Qed.

(** The equation of [split] with a nonempty separator. *)
Lemma split_eqn (sep : text) (Hsep : sep <> []) (s : text) :
  split s sep = match find sep s with
                | None => [s]
                | Some (u, v) => u :: split v sep
                end.
Proof.
  unfold split. destruct (find sep s) as [[u v]|] eqn:F.
  - pose proof (find_length _ _ _ _ F) as L.
    assert (0 < length sep) by (destruct sep; [congruence | simpl; lia]).
    destruct (length s) as [|n] eqn:E; [lia|]. cbn [split_fuel replace_fuel]. rewrite F. f_equal.
    apply split_fuel_enough; auto; lia.
  - destruct (length s); cbn [split_fuel replace_fuel]; [|rewrite F]; reflexivity.
Qed.

Lemma replace_fuel_enough (old new : text) (Hold : old <> []) (n m : nat)
    (s : text) :
  length s <= n -> length s <= m ->
  replace_fuel n old new s = replace_fuel m old new s.
Proof.
  revert m s; induction n as [|n IH]; intros m s Hn Hm.
  - destruct s; [|simpl in Hn; lia]. destruct m; cbn [split_fuel replace_fuel]; [reflexivity|].
    destruct (find old []) as [[u v]|] eqn:F; [|reflexivity].
    apply find_length in F. destruct old; [congruence | simpl in F; lia].
  - cbn [split_fuel replace_fuel]. destruct (find old s) as [[u v]|] eqn:F.
    + pose proof (find_length _ _ _ _ F) as L.
      assert (0 < length old) by (destruct old; [congruence | simpl; lia]).
      destruct m as [|m]; [lia|]. cbn [split_fuel replace_fuel]. rewrite F. do 2 f_equal.
      apply IH; lia.
    + destruct m; cbn [split_fuel replace_fuel]; [reflexivity | rewrite F; reflexivity].
Qed.

Lemma replace_eqn (old new : text) (Hold : old <> []) (s : text) :
  replace s old new = match find old s with
                      | None => s
                      | Some (u, v) => u ++ new ++ replace v old new
                      end.
Proof.
  unfold replace. destruct (find old s) as [[u v]|] eqn:F.
  - pose proof (find_length _ _ _ _ F) as L.
    assert (0 < length old) by (destruct old; [congruence | simpl; lia]).
    destruct (length s) as [|n] eqn:E; [lia|]. cbn [split_fuel replace_fuel]. rewrite F. do 2 f_equal.
    apply replace_fuel_enough; auto; lia.
  - destruct (length s); cbn [split_fuel replace_fuel]; [|rewrite F]; reflexivity.
Qed.

(** Induction on a text along the cuts [split] and [replace] make. *)
Lemma cut_ind (sep : text) (Hsep : sep <> []) (P : text -> Prop) :
  (forall s, find sep s = None -> P s) ->
  (forall s u v, find sep s = Some (u, v) -> P v -> P s) ->
  forall s, P s.
Proof.
  intros Hnone Hsome s.
  remember (length s) as n eqn:E. revert s E.
  induction n as [n IH] using lt_wf_ind. intros s ->.
  destruct (find sep s) as [[u v]|] eqn:F; [|auto].
  apply (Hsome s u v F). apply (IH (length v)); [|reflexivity].
  apply find_length in F.
  destruct sep; [congruence | simpl in F; lia].
Qed.

Lemma split_nonempty (sep s : text) : split s sep <> [].
Proof.
  unfold split. destruct (length s); cbn [split_fuel]; [discriminate|].
  destruct (find sep s) as [[u v]|]; discriminate.
Qed.

Lemma join_cons (sep p : text) (ps : list text) :
  ps <> [] -> join sep (p :: ps) = p ++ sep ++ join sep ps.
Proof. destruct ps; [congruence | reflexivity]. Qed.

(** Joining the pieces with the separator gives the text back. *)
Lemma join_split (sep : text) (Hsep : sep <> []) (s : text) :
  join sep (split s sep) = s.
Proof.
  induction s as [s F | s u v F IH] using (cut_ind sep Hsep);
    rewrite (split_eqn sep Hsep), F.
  - reflexivity.
  - rewrite join_cons by apply split_nonempty.
    rewrite IH. symmetry. apply find_Some, F.
Qed.


Lemma replace_absent (old new s : text) :
  contains old s = false -> replace s old new = s.
Proof.
  unfold contains, replace. destruct (find old s) eqn:F; [discriminate|].
  intros _. destruct (length s); cbn [split_fuel replace_fuel]; [|rewrite F];
    reflexivity.
Qed.

Lemma split_absent (sep s : text) :
  contains sep s = false -> split s sep = [s].
Proof.
  unfold contains, split. destruct (find sep s) eqn:F; [discriminate|].
  intros _. destruct (length s); cbn [split_fuel replace_fuel]; [|rewrite F];
    reflexivity.
Qed.

Lemma find_before_absent (sep : text) (Hsep : sep <> []) (s u v : text) :
  find sep s = Some (u, v) -> find sep u = None.
Proof.
  intros F. apply find_None_iff. intros a b E.
  destruct sep as [|c sep]; [congruence|].
  pose proof (find_leftmost _ _ _ _ F a ((c :: sep) ++ b)) as L.
  rewrite <- app_assoc in L.
  rewrite strip_prefix_app in L.
  assert (H : (c :: sep) ++ b <> []) by discriminate.
  specialize (L E H). discriminate.
Qed.

(** No piece of a split contains the separator. *)
Lemma split_pieces_absent (sep : text) (Hsep : sep <> []) (s : text) :
  Forall (fun p => contains sep p = false) (split s sep).
Proof.
  induction s as [s F | s u v F IH] using (cut_ind sep Hsep);
    rewrite (split_eqn sep Hsep), F.
  - constructor; [|constructor]. unfold contains. now rewrite F.
  - constructor; [|exact IH]. unfold contains.
    now rewrite (find_before_absent sep Hsep _ _ _ F).
Qed.

(** ** [strip] *)

Lemma lstrip_all_space (w : text) : all_space w = true -> lstrip w = [].
Proof.
  induction w as [|c w IH]; simpl; [reflexivity|].
  intros H. apply andb_true_iff in H as [-> H]. auto.
Qed.

Lemma lstrip_app_ws (w s : text) :
  all_space w = true -> lstrip (w ++ s) = lstrip s.
Proof.
  induction w as [|c w IH]; simpl; [reflexivity|].
  intros H. apply andb_true_iff in H as [-> H]. auto.
Qed.

Lemma lstrip_app (s t : text) :
  lstrip (s ++ t) = if all_space s then lstrip t else lstrip s ++ t.
Proof.
  induction s as [|c s IH]; simpl; [reflexivity|].
  destruct (is_space c); simpl; [exact IH | reflexivity].
Qed.

Lemma lstrip_head (s : text) (c : char) (x : text) :
  lstrip s = c :: x -> is_space c = false.
Proof.
  induction s as [|a s IH]; simpl; [discriminate|].
  destruct (is_space a) eqn:E; [exact IH|]. intros [= <- _]. exact E.
Qed.

Lemma lstrip_decomp (s : text) :
  exists w, all_space w = true /\ s = w ++ lstrip s.
Proof.
  induction s as [|a s (w & Hw & E)]; simpl.
  - exists []. split; reflexivity.
  - destruct (is_space a) eqn:Ea.
    + exists (a :: w). simpl. rewrite Ea, Hw. split; [reflexivity|].
      f_equal. exact E.
    + exists []. split; reflexivity.
Qed.

Lemma all_space_rev (w : text) : all_space (rev w) = all_space w.
Proof.
  unfold all_space. induction w as [|c w IH]; simpl; [reflexivity|].
  rewrite forallb_app, IH. simpl. rewrite andb_true_r. apply andb_comm.
Qed.

Lemma rstrip_app_ws (s w : text) :
  all_space w = true -> rstrip (s ++ w) = rstrip s.
Proof.
  intros H. unfold rstrip. rewrite rev_app_distr, lstrip_app_ws; auto.
  now rewrite all_space_rev.
Qed.

Lemma rstrip_app (s t : text) :
  rstrip (s ++ t) = if all_space t then rstrip s else s ++ rstrip t.
Proof.
  unfold rstrip. rewrite rev_app_distr, lstrip_app, all_space_rev.
  destruct (all_space t); [reflexivity|].
  now rewrite rev_app_distr, rev_involutive.
Qed.

Lemma rstrip_decomp (s : text) :
  exists w, all_space w = true /\ s = rstrip s ++ w.
Proof.
  destruct (lstrip_decomp (rev s)) as (w & Hw & E).
  exists (rev w). rewrite all_space_rev. split; [exact Hw|].
  unfold rstrip. rewrite <- rev_app_distr, <- E. now rewrite rev_involutive.
Qed.

Lemma rstrip_nil : rstrip [] = [].
Proof. reflexivity. Qed.

Lemma strip_all_space (w : text) : all_space w = true -> strip w = [].
Proof. intros H. unfold strip. now rewrite lstrip_all_space. Qed.

Lemma strip_app_ws_l (w s : text) :
  all_space w = true -> strip (w ++ s) = strip s.
Proof. intros H. unfold strip. now rewrite lstrip_app_ws. Qed.

Lemma strip_app_ws_r (s w : text) :
  all_space w = true -> strip (s ++ w) = strip s.
Proof.
  intros H. unfold strip. rewrite lstrip_app.
  destruct (all_space s) eqn:E.
  - now rewrite (lstrip_all_space w H), (lstrip_all_space s E).
  - now apply rstrip_app_ws.
Qed.

(** The text is its stripped form between two runs of white space. *)
Lemma strip_decomp (s : text) :
  exists w1 w2, all_space w1 = true /\ all_space w2 = true /\
                s = w1 ++ strip s ++ w2.
Proof.
  destruct (lstrip_decomp s) as (w1 & H1 & E1).
  destruct (rstrip_decomp (lstrip s)) as (w2 & H2 & E2).
  exists w1, w2. repeat split; auto. unfold strip.
  now rewrite <- E2.
Qed.

(** A text that starts and ends with a character that is not white space
    is its own stripped form. *)
Lemma strip_fixed (a b : char) (x : text) :
  is_space a = false -> is_space b = false ->
  strip (a :: x ++ [b]) = a :: x ++ [b].
Proof.
  intros Ha Hb. unfold strip. simpl. rewrite Ha.
  change (a :: x ++ [b]) with ((a :: x) ++ [b]).
  rewrite rstrip_app. simpl. rewrite Hb. simpl.
  unfold rstrip. simpl. now rewrite Hb.
Qed.

Lemma strip_head (s : text) (c : char) (x : text) :
  strip s = c :: x -> is_space c = false.
Proof.
  unfold strip. intros H.
  destruct (rstrip_decomp (lstrip s)) as (w & Hw & E).
  rewrite H in E. simpl in E. exact (lstrip_head s c _ E).
Qed.

Lemma contains_false_strip (sep s : text) :
  contains sep s = false -> contains sep (strip s) = false.
Proof.
  destruct (strip_decomp s) as (w1 & w2 & _ & _ & E).
  intros H. rewrite E in H. exact (contains_false_part _ _ _ _ H).
Qed.

End StringFacts.

(** * Reading a file back *)

Section Reading.

Lemma universal_newlines_no_CR (s : text) :
  no_CR (universal_newlines s) = true.
Proof.
  assert (G : forall s, no_CR (universal_newlines s) = true
                        /\ forall c, no_CR (universal_newlines (c :: s)) = true).
  { clear s. induction s as [|d s [IH1 IH2]].
    - split; [reflexivity|]. intros c. cbn [universal_newlines].
      destruct (char_eqb c CR) eqn:E; [reflexivity|].
      unfold no_CR. cbn. now rewrite E.
    - split; [apply IH2|]. intros c.
      cbn [universal_newlines]. fold (universal_newlines (d :: s)).
      destruct (char_eqb c CR) eqn:E.
      + destruct (char_eqb d LF);
          unfold no_CR; cbn [forallb]; [exact IH1 | apply (IH2 d)].
      + unfold no_CR. cbn [forallb]. rewrite E. apply (IH2 d). }
  apply G.
Qed.

(** A text without carriage return reads back unchanged. *)
Lemma universal_newlines_id (s : text) :
  no_CR s = true -> universal_newlines s = s.
Proof.
  induction s as [|c s IH]; [reflexivity|]. unfold no_CR. cbn [forallb].
  intros H. apply andb_true_iff in H as [H1 H2].
  cbn [universal_newlines].
  destruct (char_eqb c CR); [discriminate | now rewrite (IH H2)].
Qed.

Lemma universal_newlines_app (a b : text) :
  no_CR a = true ->
  universal_newlines (a ++ b) = a ++ universal_newlines b.
Proof.
  induction a as [|c a IH]; [reflexivity|]. unfold no_CR. cbn [forallb].
  intros H. apply andb_true_iff in H as [H1 H2]. cbn [app universal_newlines].
  destruct (char_eqb c CR); [discriminate | now rewrite (IH H2)].
Qed.

Lemma no_CR_app (a b : text) : no_CR (a ++ b) = no_CR a && no_CR b.
Proof. apply forallb_app. Qed.

Lemma no_CR_In (s : text) : no_CR s = true <-> ~ In CR s.
Proof.
  unfold no_CR. rewrite forallb_forall. split.
  - intros H I. specialize (H CR I). discriminate.
  - intros H c I. destruct (char_eqb c CR) eqn:E; [|reflexivity].
    apply char_eqb_eq in E. subst c. contradiction.
Qed.

(** Induction two characters at a time, as [universal_newlines] recurses. *)
Lemma text_ind2 (P : text -> Prop) :
  P [] -> (forall c, P [c]) ->
  (forall c d s, P s -> P (d :: s) -> P (c :: d :: s)) ->
  forall s, P s.
Proof.
  intros H0 H1 H2.
  assert (G : forall s, P s /\ forall c, P (c :: s)).
  { induction s as [|d s [IH1 IH2]].
    - split; [exact H0 | exact H1].
    - split; [apply IH2|]. intros c. apply H2; [exact IH1 | apply IH2]. }
  intros s. apply G.
Qed.

Lemma universal_newlines_cons (c d : char) (s : text) :
  universal_newlines (c :: d :: s)
  = if char_eqb c CR
    then LF :: (if char_eqb d LF then universal_newlines s
                else universal_newlines (d :: s))
    else c :: universal_newlines (d :: s).
Proof. reflexivity. Qed.

(** Reading goes on after a line feed as if the text started there. *)
Lemma universal_newlines_app_LF (a b : text) :
  universal_newlines (a ++ LF :: b)
  = universal_newlines (a ++ nl) ++ universal_newlines b.
Proof.
  induction a as [|c|c d a IH1 IH2] using text_ind2.
  - reflexivity.
  - cbn [app]. unfold nl. rewrite !universal_newlines_cons.
    destruct (char_eqb c CR); reflexivity.
  - cbn [app]. rewrite !universal_newlines_cons.
    destruct (char_eqb c CR).
    + destruct (char_eqb d LF); cbn [app]; f_equal; [exact IH1 | exact IH2].
    + cbn [app]. f_equal. exact IH2.
Qed.

(** A line feed written after [r] reads back as one more line feed, unless
    [r] ends with a carriage return: the two are then read as one. *)
Lemma universal_newlines_snoc_LF (r : text) :
  universal_newlines (r ++ nl) = universal_newlines r ++ nl
  \/ (universal_newlines (r ++ nl) = universal_newlines r
      /\ exists x, universal_newlines r = x ++ nl).
Proof.
  induction r as [|c|c d r IH1 IH2] using text_ind2.
  - left. reflexivity.
  - cbn [app]. unfold nl.
    rewrite universal_newlines_cons. cbn [universal_newlines].
    destruct (char_eqb c CR).
    + right. split; [reflexivity|]. exists []. reflexivity.
    + left. reflexivity.
  - cbn [app]. rewrite !universal_newlines_cons.
    destruct (char_eqb c CR).
    + destruct (char_eqb d LF).
      * destruct IH1 as [E | (E & x & X)].
        -- left. now rewrite E.
        -- right. split; [now rewrite E|]. exists (LF :: x). now rewrite X.
      * destruct IH2 as [E | (E & x & X)].
        -- left. cbn [app] in E. now rewrite E.
        -- right. cbn [app] in E. split; [now rewrite E|].
           exists (LF :: x). now rewrite X.
    + destruct IH2 as [E | (E & x & X)].
      * left. cbn [app] in E. now rewrite E.
      * right. cbn [app] in E. split; [now rewrite E|].
        exists (c :: x). now rewrite X.
Qed.

(** The text [r] followed by a line feed reads back as some [r'] followed
    by a line feed, where [r'] is [r] as it reads back, up to a line feed at
    its end. *)
Lemma reads_back_before_LF (r : text) :
  exists r', universal_newlines (r ++ nl) = r' ++ nl
             /\ strip r' = strip (universal_newlines r)
             /\ (forall sep, contains sep (universal_newlines r) = false ->
                             contains sep r' = false).
Proof.
  destruct (universal_newlines_snoc_LF r) as [E | (E & x & X)].
  - exists (universal_newlines r). repeat split; auto.
  - exists x. split; [now rewrite E|]. rewrite X. split.
    + symmetry. apply strip_app_ws_r. reflexivity.
    + intros sep C. exact (contains_false_part sep [] x nl C).
Qed.

Lemma all_space_universal_newlines (r : text) :
  all_space (universal_newlines r) = all_space r.
Proof.
  assert (K : forall c, char_eqb c CR = true -> is_space c = true).
  { intros c E. apply char_eqb_eq in E. now subst c. }
  assert (L : forall d, char_eqb d LF = true -> is_space d = true).
  { intros d E. apply char_eqb_eq in E. now subst d. }
  induction r as [|c|c d r IH1 IH2] using text_ind2.
  - reflexivity.
  - cbn [universal_newlines]. destruct (char_eqb c CR) eqn:E; [|reflexivity].
    unfold all_space. cbn [forallb]. now rewrite (K c E).
  - rewrite universal_newlines_cons. unfold all_space in *.
    destruct (char_eqb c CR) eqn:E.
    + cbn [forallb]. rewrite (K c E).
      destruct (char_eqb d LF) eqn:F.
      * rewrite (L d F). rewrite IH1. reflexivity.
      * rewrite IH2. reflexivity.
    + cbn [forallb] in *. now rewrite IH2.
Qed.

Lemma blank_all_space (s : text) : blank s = all_space s.
Proof.
  unfold blank. destruct (all_space s) eqn:E.
  - now rewrite (strip_all_space s E).
  - destruct (strip s) eqn:S; [|reflexivity].
    destruct (strip_decomp s) as (w1 & w2 & H1 & H2 & D).
    rewrite S in D. cbn [app] in D. rewrite D in E.
    unfold all_space in *. rewrite forallb_app, H1, H2 in E. discriminate.
Qed.

Lemma blank_universal_newlines (r : text) :
  blank (universal_newlines r) = blank r.
Proof. rewrite !blank_all_space. apply all_space_universal_newlines. Qed.

(** A text without line feed at the head of what was read was at the head
    of what is stored. *)
Lemma universal_newlines_prefix (p r v : text) :
  ~ In LF p -> universal_newlines r = p ++ v ->
  exists v', r = p ++ v' /\ universal_newlines v' = v.
Proof.
  revert r; induction p as [|a p IH]; intros r N E.
  - exists r. split; [reflexivity | exact E].
  - destruct r as [|c r]; [discriminate|].
    cbn [universal_newlines app] in E.
    destruct (char_eqb c CR).
    + injection E as E _. exfalso. apply N. left. now symmetry.
    + injection E as -> E.
      destruct (IH r (fun I => N (or_intror I)) E) as (v' & -> & V).
      exists v'. split; [reflexivity | exact V].
Qed.

Lemma universal_newlines_infix (p : text) :
  ~ In LF p -> p <> [] ->
  forall u r v, universal_newlines r = u ++ p ++ v ->
                exists u' v', r = u' ++ p ++ v'.
Proof.
  intros N Hp. induction u as [|x u IH]; intros r v E.
  - destruct (universal_newlines_prefix p r v N E) as (v' & -> & _).
    exists [], v'. reflexivity.
  - destruct r as [|c r]; [discriminate|].
    cbn [universal_newlines app] in E.
    destruct (char_eqb c CR).
    + injection E as _ E. destruct r as [|d r].
      * exfalso. destruct u; [destruct p; [congruence | discriminate]
                             | discriminate].
      * destruct (char_eqb d LF).
        -- destruct (IH r v E) as (u' & v' & ->).
           exists (c :: d :: u'), v'. reflexivity.
        -- destruct (IH (d :: r) v E) as (u' & v' & ->).
           exists (c :: u'), v'. reflexivity.
    + injection E as _ E. destruct (IH r v E) as (u' & v' & ->).
      exists (c :: u'), v'. reflexivity.
Qed.

(** Reading creates no occurrence of a text without line feed. *)
Lemma contains_universal_newlines (p r : text) :
  ~ In LF p -> p <> [] ->
  contains p r = false -> contains p (universal_newlines r) = false.
Proof.
  intros N Hp. rewrite !contains_false. intros H u v E.
  destruct (universal_newlines_infix p N Hp u r v E) as (u' & v' & E').
  exact (H u' v' E').
Qed.

End Reading.

(** * The parser and the turn filter *)

Section Parser.

Lemma delimiter_nonempty : delimiter <> [].
Proof. discriminate. Qed.

Lemma split_length_delimited (sep : text) (Hsep : sep <> []) (s : text) :
  contains sep s = true -> 2 <= length (split s sep).
Proof.
  unfold contains. rewrite (split_eqn sep Hsep).
  destruct (find sep s) as [[u v]|]; [|discriminate]. intros _.
  pose proof (split_nonempty sep v). destruct (split v sep); [congruence|].
  simpl. lia.
Qed.

Lemma parse_content_delimited (s : text) :
  contains delimiter s = true ->
  parse_content s = block_messages 0 (split s delimiter).
Proof.
  intros H. apply (split_length_delimited _ delimiter_nonempty) in H.
  unfold parse_content.
  destruct (Nat.eqb_spec (length (split s delimiter)) 1); [lia | reflexivity].
Qed.

Lemma block_messages_app (i : nat) (a b : list text) :
  block_messages i (a ++ b)
  = block_messages i a ++ block_messages (i + length a) b.
Proof.
  revert i; induction a as [|x a IH]; intros i; simpl.
  - now rewrite Nat.add_0_r.
  - rewrite IH, <- plus_n_Sm. destruct (strip x); reflexivity.
Qed.

Lemma block_messages_blank (i : nat) (bs : list text) :
  forallb blank bs = true -> block_messages i bs = [].
Proof.
  revert i; induction bs as [|b bs IH]; intros i; simpl; [reflexivity|].
  unfold blank at 1. destruct (strip b); simpl; [apply IH | discriminate].
Qed.

Lemma block_messages_kept (i : nat) (bs : list text) :
  forallb (fun b => negb (blank b)) bs = true ->
  block_messages i bs
  = map (fun jb => Message (role_of_index (fst jb)) (strip (snd jb)))
        (combine (seq i (length bs)) bs).
Proof.
  revert i; induction bs as [|b bs IH]; intros i; simpl; [reflexivity|].
  unfold blank at 1. destruct (strip b) eqn:E; simpl; [discriminate|].
  intros H. now rewrite IH.
Qed.

(** The loop keeps the blocks that are not blank, each with its index. *)
Lemma block_messages_filter (i : nat) (bs : list text) :
  block_messages i bs
  = map (fun jb => Message (role_of_index (fst jb)) (strip (snd jb)))
        (filter (fun jb => negb (blank (snd jb)))
                (combine (seq i (length bs)) bs)).
Proof.
  revert i; induction bs as [|b bs IH]; intros i; [reflexivity|].
  cbn [block_messages length seq combine filter snd]. unfold blank at 1.
  rewrite IH. destruct (strip b) eqn:E; cbn [negb map fst snd];
    rewrite ?E; reflexivity.
Qed.

(** Every message comes from a block that is not blank, with the role of
    that block's index. *)
Lemma block_messages_In (i : nat) (bs : list text) (m : message) :
  In m (block_messages i bs) <->
  exists j b, nth_error bs j = Some b /\ blank b = false /\
              m = Message (role_of_index (i + j)) (strip b).
Proof.
  revert i; induction bs as [|x bs IH]; intros i; simpl.
  - split; [tauto|]. intros ([|j] & b & H & _); discriminate.
  - assert (R : In m (block_messages (S i) bs) <->
                exists j b, nth_error bs j = Some b /\ blank b = false /\
                            m = Message (role_of_index (i + S j)) (strip b)).
    { rewrite IH. split; intros (j & b & H1 & H2 & H3); exists j, b;
        repeat split; auto; rewrite H3; do 2 f_equal; lia. }
    split.
    + intros H.
      assert (C : (blank x = false /\ m = Message (role_of_index i) (strip x))
                  \/ In m (block_messages (S i) bs)).
      { unfold blank. destruct (strip x); [right; exact H|].
        destruct H as [<- | H]; [left; split; reflexivity | right; exact H]. }
      destruct C as [[Hx ->] | H'].
      * exists 0, x. rewrite Nat.add_0_r. repeat split; auto.
      * apply R in H' as (j & b & H1 & H2 & H3). exists (S j), b. auto.
    + intros (j & b & H1 & H2 & H3). destruct j as [|j]; simpl in H1.
      * injection H1 as ->. rewrite Nat.add_0_r in H3. unfold blank in H2.
        destruct (strip b); [discriminate | left; now rewrite H3].
      * assert (In m (block_messages (S i) bs)) by (apply R; eauto).
        destruct (strip x); [assumption | right; assumption].
Qed.

End Parser.

(** * Properties of [parse_markdown_file] and [filter_messages] *)

Lemma single_user_message (s : text) :
  contains delimiter s = false ->
  parse_content s = [Message user (strip s)]
  /\ (all_space s = true -> parse_content s = [Message user []]).
Proof.
  intros H.
  assert (E : parse_content s = [Message user (strip s)]).
  { unfold parse_content. now rewrite (split_absent _ _ H). }
  split; [exact E|]. intros W. now rewrite E, (strip_all_space _ W).
Qed.

(** C7.  A text with no occurrence of the delimiter parses to exactly one
    message, of role [user], whose content is the whole stripped text; when
    the text is empty or white space only, that content is empty. *)
Theorem parse_content_no_delimiter (s : text)
    (H : contains delimiter s = false) :
  parse_content s = [Message user (strip s)]
  /\ (all_space s = true -> parse_content s = [Message user []]).
Proof. exact (single_user_message s H). Qed.

Lemma parse_content_no_delimiter_witness :
  contains delimiter (str "  Hello ") = false
  /\ parse_content (str "  Hello ") = [Message user (str "Hello")]
  /\ parse_content [] = [Message user []].
Proof.
  split; [reflexivity|]. split.
  - exact (proj1 (parse_content_no_delimiter (str "  Hello ") eq_refl)).
  - exact (proj2 (parse_content_no_delimiter [] eq_refl) eq_refl).
Defined.

(** C8.  At every position of the sequence, [filter_messages] drops the
    message when its stripped content is one of the control markers and keeps
    it, in place, otherwise; the match is exact and case sensitive. *)
Theorem filter_messages_exact (before after : list message) (m : message) :
  (In (strip (content m)) control_markers ->
   filter_messages (before ++ m :: after)
   = filter_messages before ++ filter_messages after)
  /\ (~ In (strip (content m)) control_markers ->
      filter_messages (before ++ m :: after)
      = filter_messages before ++ m :: filter_messages after)
  /\ filter_messages [Message user (str "c1")] = []
  /\ filter_messages [Message user (str " c1 " ++ nl)] = []
  /\ filter_messages [Message user (str "c1 please")]
     = [Message user (str "c1 please")]
  /\ filter_messages [Message user (str "CC")] = [Message user (str "CC")]
  /\ filter_messages [Message user (str "c8")] = [Message user (str "c8")].
Proof.
  split; [|split; [|repeat split]].
  - intros I. apply in_list_In in I.
    unfold filter_messages. rewrite filter_app. cbn [filter].
    now rewrite I.
  - intros N. unfold filter_messages. rewrite filter_app. cbn [filter].
    destruct (in_list (strip (content m)) control_markers) eqn:E;
      [|reflexivity].
    apply in_list_In in E. contradiction.
Qed.

(** C1, as amended.  In a text with a delimiter the parser returns, in
    order, one message for each block that is not blank, with the role of
    the index the block has among all blocks, blank ones included: [user] at
    an even index, [assistant] at an odd one.  The roles therefore alternate
    from [user] whenever the blank blocks all come after the kept ones. *)
Theorem parse_content_roles (s : text)
    (Hd : contains delimiter s = true) :
  parse_content s
  = map (fun jb => Message (role_of_index (fst jb)) (strip (snd jb)))
        (filter (fun jb => negb (blank (snd jb)))
                (combine (seq 0 (length (split s delimiter)))
                         (split s delimiter)))
  /\ (forall m, In m (parse_content s) <->
        exists j b, nth_error (split s delimiter) j = Some b
                    /\ blank b = false
                    /\ m = Message (role_of_index j) (strip b))
  /\ (forall kept trailing,
        split s delimiter = kept ++ trailing ->
        forallb (fun b => negb (blank b)) kept = true ->
        forallb blank trailing = true ->
        map role (parse_content s) = map role_of_index (seq 0 (length kept))
        /\ map content (parse_content s) = map strip kept).
Proof.
  rewrite (parse_content_delimited _ Hd). split; [|split].
  - apply block_messages_filter.
  - intros m. now rewrite block_messages_In.
  - intros kept trailing Hs Hk Ht.
    rewrite Hs, block_messages_app, (block_messages_blank _ _ Ht), app_nil_r.
    rewrite (block_messages_kept _ _ Hk), !map_map. cbn [role content].
    clear. generalize 0. induction kept as [|b bs IH]; intros i; cbn.
    + split; reflexivity.
    + destruct (IH (S i)) as [-> ->]. split; reflexivity.
Qed.

Lemma parse_content_roles_witness :
  contains delimiter (str "a------b") = true
  /\ parse_content (str "a------b")
     = [Message (role_of_index 0) (str "a");
        Message (role_of_index 2) (str "b")]
  /\ contains delimiter (str "Q1---A1---Q2--- ") = true
  /\ map role (parse_content (str "Q1---A1---Q2--- "))
     = [user; assistant; user].
Proof.
  split; [reflexivity|]. split; [|split; [reflexivity|]].
  - exact (proj1 (parse_content_roles (str "a------b") eq_refl)).
  - exact (proj1 (proj2 (proj2
      (parse_content_roles (str "Q1---A1---Q2--- ") eq_refl))
      [str "Q1"; str "A1"; str "Q2"] [str " "] eq_refl eq_refl eq_refl)).
Defined.

(** C1, as stated, fails: a blank block in the middle leaves two [user]
    messages next to each other, and a blank first block makes the sequence
    start with [assistant]. *)
Lemma parse_content_roles_counterexample :
  contains delimiter (str "a------b") = true
  /\ parse_content (str "a------b")
     = [Message user (str "a"); Message user (str "b")]
  /\ map role (parse_content (str "a------b")) <> [user; assistant]
  /\ contains delimiter (str "---x") = true
  /\ parse_content (str "---x") = [Message assistant (str "x")].
Proof. repeat split. vm_compute. discriminate. Qed.

(** * The file rewrites *)

Section Rewrites.

Lemma truncate_write_write (p : path) (a b : text) (w : world) :
  rewrites (truncate p ;;; write p a ;;; write p b) w p tt (a ++ b)
           [Truncate p; Write p a; Write p b].
Proof.
  unfold rewrites, bind, truncate, write, set_file. simpl.
  rewrite !text_eqb_refl. simpl. rewrite !text_eqb_refl.
  eexists. split; [reflexivity|]. simpl. rewrite text_eqb_refl.
  repeat split.
  - intros q Hq. now rewrite !Hq.
  - now rewrite <- !app_assoc.
Qed.

Lemma insert_run (p : path) (model raw : text) (c := universal_newlines raw)
    (w : world) :
  files w p = ReadWrite raw ->
  rewrites (insert p model) w p tt (insert_text c model)
           [Truncate p; Write p (scrub_lines c); Write p (placeholder model)].
Proof.
  intros H. unfold insert, rewrites.
  unfold bind at 1. unfold read_rw. rewrite H.
  apply truncate_write_write.
Qed.

Lemma resolveSuccess_run (p : path) (model response raw : text)
    (c := universal_newlines raw) (w : world) :
  files w p = ReadWrite raw ->
  rewrites (resolveSuccess p model response) w p tt
           (resolveSuccess_text c model response)
           [Truncate p; Write p (replace (strip c) (marker model) []);
            Write p (response_block response)].
Proof.
  intros H. unfold resolveSuccess, rewrites.
  unfold bind at 1. unfold read_rw. rewrite H.
  apply truncate_write_write.
Qed.

Lemma resolveFailure_run (p : path) (model err raw : text)
    (c := universal_newlines raw) (w : world) :
  files w p = ReadWrite raw ->
  rewrites (resolveFailure p model err) w p tt
           (resolveFailure_text c model err)
           [Truncate p; Write p (replace (strip c) (marker model) []);
            Write p (error_block err)].
Proof.
  intros H. unfold resolveFailure, rewrites.
  unfold bind at 1. unfold read_rw. rewrite H.
  apply truncate_write_write.
Qed.

Lemma marker_nonempty (model : text) : marker model <> [].
Proof. discriminate. Qed.

Lemma strip_dashes (z : text) (a : char) (x : text) :
  z ++ str "---" = a :: x -> is_space a = false ->
  strip (z ++ str "---") = z ++ str "---".
Proof.
  intros E Ha. unfold strip. rewrite E. cbn [lstrip]. rewrite Ha, <- E.
  now rewrite rstrip_app.
Qed.

(** Stripping what a failure rewrite left behind. *)
Lemma strip_after_error_block (s e : text) :
  strip (strip s ++ error_block e)
  = (match strip s with [] => [] | _ :: _ => strip s ++ nl ++ nl end)
    ++ str "---" ++ nl ++ nl ++ str "Error: " ++ e ++ nl ++ nl ++ str "---".
Proof.
  unfold error_block.
  replace (strip s ++ nl ++ nl ++ str "---" ++ nl ++ nl ++ str "Error: " ++ e
             ++ nl ++ nl ++ str "---" ++ nl ++ nl)
    with ((strip s ++ nl ++ nl ++ str "---" ++ nl ++ nl ++ str "Error: " ++ e
             ++ nl ++ nl ++ str "---") ++ (nl ++ nl))
    by (now rewrite <- !app_assoc).
  rewrite strip_app_ws_r by reflexivity.
  destruct (strip s) as [|a x] eqn:E.
  - cbn [app].
    replace (nl ++ nl ++ str "---" ++ nl ++ nl ++ str "Error: " ++ e
               ++ nl ++ nl ++ str "---")
      with ((nl ++ nl) ++ str "---" ++ nl ++ nl ++ str "Error: " ++ e
               ++ nl ++ nl ++ str "---")
      by (now rewrite <- !app_assoc).
    rewrite strip_app_ws_l by reflexivity.
    rewrite !app_assoc.
    eapply strip_dashes; [rewrite <- !app_assoc; reflexivity | reflexivity].
  - pose proof (strip_head _ _ _ E) as Ha.
    rewrite !app_assoc.
    eapply strip_dashes; [rewrite <- !app_assoc; reflexivity | exact Ha].
Qed.

End Rewrites.

(** ** Lines *)

Section Lines.

Variable c : char.

Lemma find_char_app (l rest : text) :
  find [c] l = None -> find [c] (l ++ c :: rest) = Some (l, rest).
Proof.
  induction l as [|x l IH]; cbn [find app strip_prefix].
  - intros _. now rewrite (proj2 (char_eqb_eq c c) eq_refl).
  - destruct (char_eqb c x); [destruct l; discriminate|].
    destruct (find [c] l) as [[u v]|]; [discriminate|].
    intros _. now rewrite IH.
Qed.

(** Splitting a join at a one-character separator gives the parts back,
    when no part holds the separator. *)
Lemma split_join_char (ls : list text) :
  ls <> [] -> Forall (fun l => contains [c] l = false) ls ->
  split (join [c] ls) [c] = ls.
Proof.
  assert (Hc : [c] <> []) by discriminate.
  induction ls as [|l ls IH]; [congruence|]. intros _ H.
  inversion H as [|? ? Hl Hls]; subst.
  assert (Fl : find [c] l = None).
  { unfold contains in Hl. destruct (find [c] l); [discriminate|reflexivity]. }
  destruct ls as [|l' ls].
  - cbn [join]. apply split_absent, Hl.
  - rewrite join_cons by discriminate. rewrite (split_eqn [c] Hc).
    cbn [app]. rewrite (find_char_app _ _ Fl). f_equal.
    apply IH; [discriminate | assumption].
Qed.

End Lines.

(** * Properties of the placeholder rewrites *)

(** C10.  The insert rewrite leaves in the file, before the placeholder
    block, the lines of the stripped content whose own stripped form is not
    a control marker, unchanged and in their order; the placeholder block is
    the end of the file. *)
Theorem insert_keeps_lines (p : path) (model raw : text)
    (content := universal_newlines raw) (w : world)
    (H : files w p = ReadWrite raw) :
  let kept := filter (fun line => negb (in_list (strip line) control_markers))
                     (split (strip content) nl) in
  exists body,
    rewrites (insert p model) w p tt (body ++ placeholder model)
             [Truncate p; Write p body; Write p (placeholder model)]
    /\ body = join nl kept
    /\ split body nl = match kept with [] => [[]] | _ :: _ => kept end.
Proof.
  intros kept. exists (scrub_lines content).
  split; [exact (insert_run p model raw w H)|].
  split; [reflexivity|].
  unfold scrub_lines. fold kept.
  assert (F : Forall (fun l => contains nl l = false) kept).
  { apply incl_Forall with (l1 := split (strip content) nl).
    - apply incl_filter.
    - apply split_pieces_absent. discriminate. }
  destruct kept as [|l ls] eqn:E; [reflexivity|].
  apply split_join_char; [discriminate | exact F].
Qed.

Lemma insert_keeps_lines_witness :
  exists body,
    rewrites (insert (str "note.md") (str "m"))
             (note_world (ReadWrite (nl ++ str " Q1 " ++ nl ++ str " cc"
                                        ++ nl ++ str "c1 please" ++ nl)))
             (str "note.md") tt (body ++ placeholder (str "m"))
             [Truncate (str "note.md"); Write (str "note.md") body;
              Write (str "note.md") (placeholder (str "m"))]
    /\ body = str "Q1 " ++ nl ++ str "c1 please"
    /\ split body nl = [str "Q1 "; str "c1 please"].
Proof.
  exact (insert_keeps_lines (str "note.md") (str "m")
           (nl ++ str " Q1 " ++ nl ++ str " cc" ++ nl ++ str "c1 please"
               ++ nl)
           (note_world _) eq_refl).
Defined.




(** ** Cutting a text at a character the separator does not hold *)

Section Foreign.

Variables (sep : text) (c : char).
Hypothesis Hsep : sep <> [].
Hypothesis Hc : existsb (char_eqb c) sep = false.

Lemma strip_prefix_app_foreign (p x z : text) :
  existsb (char_eqb c) p = false ->
  strip_prefix p (x ++ c :: z)
  = option_map (fun r => r ++ c :: z) (strip_prefix p x).
Proof.
  revert x; induction p as [|a p IH]; intros x H; [reflexivity|].
  cbn [existsb] in H. apply orb_false_iff in H as [Ha Hp].
  destruct x as [|b x]; cbn [app strip_prefix].
  - assert (E : char_eqb a c = false).
    { destruct (char_eqb a c) eqn:E; [|reflexivity].
      apply char_eqb_eq in E. subst a.
      now rewrite (proj2 (char_eqb_eq c c) eq_refl) in Ha. }
    now rewrite E.
  - destruct (char_eqb a b); [now apply IH | reflexivity].
Qed.

Lemma find_app_foreign (x z : text) :
  find sep (x ++ c :: z)
  = match find sep x with
    | Some (u, v) => Some (u, v ++ c :: z)
    | None => option_map (fun uv => (x ++ c :: fst uv, snd uv)) (find sep z)
    end.
Proof.
  assert (N : forall t, strip_prefix sep (c :: t) = None).
  { intros t. change (c :: t) with ([] ++ c :: t).
    rewrite (strip_prefix_app_foreign sep [] t Hc).
    destruct sep; [congruence | reflexivity]. }
  assert (N0 : strip_prefix sep [] = None)
    by (destruct sep; [congruence | reflexivity]).
  induction x as [|b x IH].
  - cbn [app find]. rewrite N, N0.
    destruct (find sep z) as [[u v]|]; reflexivity.
  - cbn [app find]. change (b :: x ++ c :: z) with ((b :: x) ++ c :: z).
    rewrite (strip_prefix_app_foreign sep (b :: x) z Hc).
    destruct (strip_prefix sep (b :: x)); [reflexivity|].
    cbn [option_map]. rewrite IH.
    destruct (find sep x) as [[u v]|]; [reflexivity|].
    destruct (find sep z) as [[u v]|]; reflexivity.
Qed.

(** The blocks of [x ++ c :: z] are those of [x] and those of [c :: z],
    the last of the former and the first of the latter being one block. *)
Lemma split_app_foreign (x z : text) :
  split (x ++ c :: z) sep
  = removelast (split x sep)
    ++ match split (c :: z) sep with
       | [] => []
       | first :: rest => (last (split x sep) [] ++ first) :: rest
       end.
Proof.
  assert (Z : split (c :: z) sep
              = match find sep z with
                | Some (u, v) => (c :: u) :: split v sep
                | None => [c :: z]
                end).
  { rewrite (split_eqn sep Hsep).
    pose proof (find_app_foreign [] z) as F. cbn [app] in F. rewrite F.
    assert (N0 : find sep [] = None).
    { cbn [find]. destruct sep; [congruence | reflexivity]. }
    rewrite N0. destruct (find sep z) as [[u v]|]; reflexivity. }
  rewrite Z. clear Z.
  induction x as [x F | x u v F IH] using (cut_ind sep Hsep).
  - rewrite (split_eqn sep Hsep x), F. cbn [removelast last app].
    rewrite (split_eqn sep Hsep), find_app_foreign, F.
    destruct (find sep z) as [[u v]|]; reflexivity.
  - rewrite (split_eqn sep Hsep x), F.
    rewrite (split_eqn sep Hsep), find_app_foreign, F, IH.
    pose proof (split_nonempty sep v) as NE.
    destruct (split v sep) as [|b bs] eqn:E; [congruence|].
    reflexivity.
Qed.

End Foreign.

(** ** Parsing what the success rewrite leaves *)

Section AfterSuccess.

Lemma delimiter_foreign_nl : existsb (char_eqb LF) delimiter = false.
Proof. reflexivity. Qed.

Lemma find_delimiter_nl (s : text) :
  find delimiter (LF :: s)
  = option_map (fun uv => (LF :: fst uv, snd uv)) (find delimiter s).
Proof.
  exact (find_app_foreign delimiter LF delimiter_nonempty
           delimiter_foreign_nl [] s).
Qed.

(** The blocks of the file after the success rewrite. *)
Lemma split_response_block (prior response : text) :
  contains delimiter response = false ->
  split (prior ++ response_block response) delimiter
  = removelast (split prior delimiter)
    ++ [last (split prior delimiter) [] ++ nl ++ nl;
        nl ++ nl ++ response ++ nl ++ nl;
        nl ++ nl].
Proof.
  intros Hr.
  assert (Fr : find delimiter response = None).
  { unfold contains in Hr. destruct (find delimiter response);
      [discriminate | reflexivity]. }
  assert (E3 : split (nl ++ nl) delimiter = [nl ++ nl]) by reflexivity.
  assert (E2 : split (nl ++ nl ++ response ++ nl ++ nl ++ delimiter
                         ++ nl ++ nl) delimiter
               = [nl ++ nl ++ response ++ nl ++ nl; nl ++ nl]).
  { rewrite (split_eqn delimiter delimiter_nonempty).
    unfold nl at 1 2. cbn [app]. rewrite !find_delimiter_nl.
    change (response ++ nl ++ nl ++ delimiter ++ nl ++ nl)
      with (response ++ LF :: (nl ++ delimiter ++ nl ++ nl)).
    rewrite (find_app_foreign delimiter LF delimiter_nonempty
               delimiter_foreign_nl), Fr.
    reflexivity. }
  assert (E1 : split (nl ++ nl ++ delimiter ++ nl ++ nl ++ response ++ nl
                         ++ nl ++ delimiter ++ nl ++ nl) delimiter
               = [nl ++ nl; nl ++ nl ++ response ++ nl ++ nl; nl ++ nl]).
  { rewrite (split_eqn delimiter delimiter_nonempty).
    unfold nl at 1 2. cbn [app]. rewrite !find_delimiter_nl.
    replace (find delimiter (delimiter ++ nl ++ nl ++ response ++ nl ++ nl
                                       ++ delimiter ++ nl ++ nl))
      with (Some ([] : text, nl ++ nl ++ response ++ nl ++ nl ++ delimiter
                                ++ nl ++ nl)) by reflexivity.
    cbn [option_map fst snd]. f_equal. exact E2. }
  unfold response_block. fold delimiter. unfold nl at 1. cbn [app].
  rewrite (split_app_foreign delimiter LF delimiter_nonempty
             delimiter_foreign_nl).
  change (LF :: nl ++ delimiter ++ nl ++ nl ++ response ++ nl ++ nl
                 ++ delimiter ++ nl ++ nl)
    with (nl ++ nl ++ delimiter ++ nl ++ nl ++ response ++ nl ++ nl
             ++ delimiter ++ nl ++ nl).
  rewrite E1. reflexivity.
Qed.

Lemma block_messages_one (i : nat) (b : text) :
  block_messages i [b]
  = if blank b then [] else [Message (role_of_index i) (strip b)].
Proof. cbn [block_messages]. unfold blank. destruct (strip b); reflexivity. Qed.

Lemma blank_app_ws_r (s w : text) :
  all_space w = true -> blank (s ++ w) = blank s.
Proof. intros H. unfold blank. now rewrite strip_app_ws_r. Qed.

Lemma parse_content_response_block (prior response : text) :
  contains delimiter response = false ->
  blank response = false ->
  parse_content (prior ++ response_block response)
  = block_messages 0 (split prior delimiter)
    ++ [Message (role_of_index (length (split prior delimiter)))
                (strip response)].
Proof.
  intros Hr Hb.
  assert (Hd : contains delimiter (prior ++ response_block response) = true).
  { destruct (contains delimiter (prior ++ response_block response)) eqn:E;
      [reflexivity|].
    exfalso. apply (proj1 (contains_false _ _) E (prior ++ nl ++ nl)
      (nl ++ nl ++ response ++ nl ++ nl ++ delimiter ++ nl ++ nl)).
    unfold response_block. fold delimiter. now rewrite <- !app_assoc. }
  rewrite (parse_content_delimited _ Hd), (split_response_block _ _ Hr).
  assert (E : exists RL b, split prior delimiter = RL ++ [b]).
  { exists (removelast (split prior delimiter)),
           (last (split prior delimiter) []).
    apply app_removelast_last, split_nonempty. }
  destruct E as (RL & b & ->). rewrite removelast_last, last_last.
  rewrite length_app. cbn [length].
  change [b ++ nl ++ nl; nl ++ nl ++ response ++ nl ++ nl; nl ++ nl]
    with ([b ++ nl ++ nl] ++ [nl ++ nl ++ response ++ nl ++ nl] ++ [nl ++ nl]).
  rewrite !block_messages_app, !block_messages_one. cbn [length].
  assert (S1 : strip (b ++ nl ++ nl) = strip b)
    by (apply strip_app_ws_r; reflexivity).
  assert (S2 : strip (nl ++ nl ++ response ++ nl ++ nl) = strip response).
  { change (nl ++ nl ++ response ++ nl ++ nl)
      with ((nl ++ nl) ++ response ++ nl ++ nl).
    rewrite strip_app_ws_l by reflexivity.
    apply strip_app_ws_r. reflexivity. }
  unfold blank in *. rewrite S1, S2.
  replace (strip (nl ++ nl)) with ([] : text) by reflexivity.
  destruct (strip response); [discriminate|].
  rewrite app_nil_r, <- app_assoc. reflexivity.
Qed.

End AfterSuccess.

(** * Properties of the driver *)

(** C5.  When parsing fails, which happens when the file cannot be read,
    [process_markdown] returns [None] and the world is the one it started
    from: no truncation, no write, no file changed. *)
Theorem process_markdown_parse_failure (ChatAPI : result ChatClient)
    (file_path : path) (model : option text) (w : world)
    (H : fst (parse_markdown_file file_path w) = Return None) :
  files w file_path = Missing
  /\ process_markdown ChatAPI file_path model w = (Return None, w).
Proof.
  unfold process_markdown, parse_markdown_file, try_except, bind, read_r, ret
    in *.
  destruct (files w file_path); cbn in *;
    [split; reflexivity | discriminate | discriminate].
Qed.

Lemma process_markdown_parse_failure_witness :
  process_markdown (Raise (ClientError [])) (str "note.md") None
                   (note_world Missing)
  = (Return None, note_world Missing).
Proof.
  exact (proj2 (process_markdown_parse_failure (Raise (ClientError []))
                  (str "note.md") None (note_world Missing) eq_refl)).
Defined.

(** * Properties of [main] *)

(** With fewer than two or more than three arguments [main] logs two error
    lines and exits with status 1; no file is opened or changed. *)
Lemma main_wrong_arity (ChatAPI : result ChatClient) (argv : list text)
    (w : world) :
  length argv < 2 \/ 3 < length argv ->
  main ChatAPI argv w
  = (SysExit 1,
     World (files w) (journal w)
           (console w
            ++ [LogInfo (str "Starting chat_with_note script");
                LogError (str "Invalid number of arguments");
                LogError (str "Usage: python script_name.py <path_to_markdown_file> [model]")])).
Proof.
  intros H. unfold main, emit. cbn [files journal console].
  assert (E : (length argv <? 2) || (3 <? length argv) = true).
  { apply orb_true_iff. destruct H; [left | right]; now apply Nat.ltb_lt. }
  rewrite E. now rewrite <- !app_assoc.
Qed.

(** C9 at an empty response.  The client answers the empty string: the
    response block is written into the file and [process_markdown] returns
    the empty string, yet [main] emits the error line and prints no success
    line. *)
Theorem main_empty_response_reports_failure :
  let run := main (Return (answering_client []))
                  [str "obsidian_note_chat.py"; str "note.md"]
                  (note_world (ReadWrite (str "Hello"))) in
  fst run = Finished
  /\ files (snd run) (str "note.md")
     = ReadWrite (str "Hello" ++ nl ++ nl ++ str "---" ++ nl ++ nl ++ []
                      ++ nl ++ nl ++ str "---" ++ nl ++ nl)
  /\ fst (process_markdown (Return (answering_client [])) (str "note.md")
                           None (note_world (ReadWrite (str "Hello"))))
     = Return (Some [])
  /\ console (snd run)
     = [LogInfo (str "Starting chat_with_note script");
        LogInfo (str "Processing file: note.md");
        LogInfo (str "Using default model");
        LogError (str "Failed to process markdown file.")].
Proof. vm_compute. repeat split. Qed.

(** * Further properties of the driver *)

Section Driver.

Variables (file_path : path) (model : option text) (raw : text).
Variable w : world.

Let m := model_or_default model.
Let content := universal_newlines raw.

(** The driver up to the construction of the client, on a writable file. *)
Lemma process_markdown_marked :
  files w file_path = ReadWrite raw ->
  exists w1,
    (forall ChatAPI : result ChatClient,
       process_markdown ChatAPI file_path model w
       = (chat <- (fun w => (ChatAPI, w)) ;;
          try_except
            (response <- (fun w => (send_message chat
                                      (filter_messages (parse_content content))
                                      m 2000 system_message, w)) ;;
             resolveSuccess file_path m response ;;;
             ret (Some response))
            (fun e => resolveFailure file_path m (exn_str e) ;;; ret None)) w1)
    /\ files w1 file_path = ReadWrite (insert_text content m)
    /\ (forall q, text_eqb q file_path = false -> files w1 q = files w q)
    /\ journal w1
       = journal w ++ [Truncate file_path;
                       Write file_path (scrub_lines content);
                       Write file_path (placeholder m)]
    /\ console w1 = console w.
Proof.
  intros H.
  destruct (insert_run file_path m raw w H)
    as (w1 & E1 & F1 & O1 & J1 & C1).
  exists w1. split; [|auto]. intros ChatAPI.
  unfold process_markdown, parse_markdown_file, try_except, read_r.
  unfold bind at 1 2. rewrite H. cbn [ret].
  fold m content. unfold bind at 1. rewrite E1. reflexivity.
Qed.

End Driver.

Lemma driver_success_run (chat : ChatClient) (file_path : path)
    (model : option text) (raw response : text)
    (content := universal_newlines raw) (w : world) :
  files w file_path = ReadWrite raw ->
  send_message chat (filter_messages (parse_content content))
               (model_or_default model) 2000 system_message
  = Return response ->
  rewrites (process_markdown (Return chat) file_path model) w file_path
           (Some response)
           (resolveSuccess_text
              (universal_newlines
                 (insert_text content (model_or_default model)))
              (model_or_default model) response)
           [Truncate file_path; Write file_path (scrub_lines content);
            Write file_path (placeholder (model_or_default model));
            Truncate file_path;
            Write file_path
                  (replace (strip (universal_newlines
                                     (insert_text content
                                                  (model_or_default model))))
                           (marker (model_or_default model)) []);
            Write file_path (response_block response)].
Proof.
  intros H Hsend.
  destruct (process_markdown_marked file_path model raw w H)
    as (w1 & E & F1 & O1 & J1 & C1).
  destruct (resolveSuccess_run file_path (model_or_default model) response
              _ w1 F1) as (w2 & E2 & F2 & O2 & J2 & C2).
  exists w2. split; [|split; [|split; [|split]]].
  - rewrite E. unfold try_except. unfold bind at 1 2 3.
    fold content. rewrite Hsend.
    unfold bind at 1. rewrite E2. reflexivity.
  - exact F2.
  - intros q Hq. now rewrite (O2 q Hq), (O1 q Hq).
  - rewrite J2, J1, <- app_assoc. reflexivity.
  - now rewrite C2.
Qed.

Lemma driver_failure_run (chat : ChatClient) (file_path : path)
    (model : option text) (raw : text) (content := universal_newlines raw)
    (e : exn) (w : world) :
  files w file_path = ReadWrite raw ->
  send_message chat (filter_messages (parse_content content))
               (model_or_default model) 2000 system_message
  = Raise e ->
  rewrites (process_markdown (Return chat) file_path model) w file_path None
           (resolveFailure_text
              (universal_newlines
                 (insert_text content (model_or_default model)))
              (model_or_default model) (exn_str e))
           [Truncate file_path; Write file_path (scrub_lines content);
            Write file_path (placeholder (model_or_default model));
            Truncate file_path;
            Write file_path
                  (replace (strip (universal_newlines
                                     (insert_text content
                                                  (model_or_default model))))
                           (marker (model_or_default model)) []);
            Write file_path (error_block (exn_str e))].
Proof.
  intros H Hsend.
  destruct (process_markdown_marked file_path model raw w H)
    as (w1 & E & F1 & O1 & J1 & C1).
  destruct (resolveFailure_run file_path (model_or_default model) (exn_str e)
              _ w1 F1) as (w2 & E2 & F2 & O2 & J2 & C2).
  exists w2. split; [|split; [|split; [|split]]].
  - rewrite E. unfold try_except. unfold bind at 1 2 3.
    fold content. rewrite Hsend.
    unfold bind at 1. rewrite E2. reflexivity.
  - exact F2.
  - intros q Hq. now rewrite (O2 q Hq), (O1 q Hq).
  - rewrite J2, J1, <- app_assoc. reflexivity.
  - now rewrite C2.
Qed.

Lemma missing_returns_none (ChatAPI : result ChatClient) (file_path : path)
    (model : option text) (w : world) :
  files w file_path = Missing ->
  process_markdown ChatAPI file_path model w = (Return None, w).
Proof.
  intros H.
  unfold process_markdown, parse_markdown_file, try_except, bind, read_r, ret.
  now rewrite H.
Qed.

(** C6.  When the file is writable, the client was constructed and
    [send_message] raises, [process_markdown] catches the exception and
    returns [None]: nothing is raised to the caller.  The failure rewrite has
    run: the file holds the text the insert rewrite left, as it reads back,
    stripped and without the marker, followed by two line feeds, the
    delimiter, two line feeds, the text "Error: " with [str(e)], two line
    feeds, the delimiter and two line feeds. *)
Theorem process_markdown_call_failure (chat : ChatClient) (file_path : path)
    (model : option text) (raw : text) (content := universal_newlines raw)
    (e : exn) (w : world)
    (H : files w file_path = ReadWrite raw)
    (Hsend : send_message chat (filter_messages (parse_content content))
                          (model_or_default model) 2000 system_message
             = Raise e) :
  rewrites (process_markdown (Return chat) file_path model) w file_path None
           (replace (strip (universal_newlines
                              (scrub_lines content
                                 ++ placeholder (model_or_default model))))
                    (marker (model_or_default model)) []
              ++ nl ++ nl ++ str "---" ++ nl ++ nl ++ str "Error: "
              ++ exn_str e ++ nl ++ nl ++ str "---" ++ nl ++ nl)
           [Truncate file_path; Write file_path (scrub_lines content);
            Write file_path (placeholder (model_or_default model));
            Truncate file_path;
            Write file_path
                  (replace (strip (universal_newlines
                                     (scrub_lines content
                                        ++ placeholder
                                             (model_or_default model))))
                           (marker (model_or_default model)) []);
            Write file_path
                  (nl ++ nl ++ str "---" ++ nl ++ nl ++ str "Error: "
                      ++ exn_str e ++ nl ++ nl ++ str "---" ++ nl ++ nl)].
Proof.
  exact (driver_failure_run chat file_path model raw e w H Hsend).
Qed.

Lemma process_markdown_call_failure_witness :
  rewrites (process_markdown (Return (failing_client (str "timeout")))
                             (str "note.md") (Some (str "m")))
           (note_world (ReadWrite (str "Hello" ++ [CR; LF])))
           (str "note.md") None
           (str "Hello" ++ nl ++ nl ++ str "---" ++ nl ++ nl
                ++ str "Error: timeout" ++ nl ++ nl ++ str "---" ++ nl ++ nl)
           [Truncate (str "note.md"); Write (str "note.md") (str "Hello");
            Write (str "note.md") (placeholder (str "m"));
            Truncate (str "note.md"); Write (str "note.md") (str "Hello");
            Write (str "note.md")
                  (nl ++ nl ++ str "---" ++ nl ++ nl ++ str "Error: timeout"
                      ++ nl ++ nl ++ str "---" ++ nl ++ nl)].
Proof.
  exact (process_markdown_call_failure (failing_client (str "timeout"))
           (str "note.md") (Some (str "m")) (str "Hello" ++ [CR; LF])
           (ClientError (str "timeout")) (note_world _) eq_refl eq_refl).
Defined.

(** X1.  On a writable file, with the client constructed and answering
    [response], [process_markdown] returns [response].  The file then holds
    what the success rewrite makes of the text the insert rewrite left, as
    it reads back: that text stripped and without the marker, followed by
    two line feeds, the delimiter, two line feeds, the response, two line
    feeds, the delimiter and two line feeds.  The file is truncated twice
    and written four times, nothing else is touched. *)
Theorem process_markdown_success (chat : ChatClient) (file_path : path)
    (model : option text) (raw response : text)
    (content := universal_newlines raw) (w : world)
    (H : files w file_path = ReadWrite raw)
    (Hsend : send_message chat (filter_messages (parse_content content))
                          (model_or_default model) 2000 system_message
             = Return response) :
  rewrites (process_markdown (Return chat) file_path model) w file_path
           (Some response)
           (replace (strip (universal_newlines
                              (scrub_lines content
                                 ++ placeholder (model_or_default model))))
                    (marker (model_or_default model)) []
              ++ nl ++ nl ++ str "---" ++ nl ++ nl ++ response ++ nl ++ nl
              ++ str "---" ++ nl ++ nl)
           [Truncate file_path; Write file_path (scrub_lines content);
            Write file_path (placeholder (model_or_default model));
            Truncate file_path;
            Write file_path
                  (replace (strip (universal_newlines
                                     (scrub_lines content
                                        ++ placeholder
                                             (model_or_default model))))
                           (marker (model_or_default model)) []);
            Write file_path
                  (nl ++ nl ++ str "---" ++ nl ++ nl ++ response ++ nl ++ nl
                      ++ str "---" ++ nl ++ nl)].
Proof.
  exact (driver_success_run chat file_path model raw response w H Hsend).
Qed.

Lemma process_markdown_success_witness :
  rewrites (process_markdown (Return (answering_client (str "Hi!")))
                             (str "note.md") None)
           (note_world (ReadWrite (str "Hello" ++ [CR; LF])))
           (str "note.md")
           (Some (str "Hi!"))
           (str "Hello" ++ nl ++ nl ++ str "---" ++ nl ++ nl ++ str "Hi!"
                ++ nl ++ nl ++ str "---" ++ nl ++ nl)
           [Truncate (str "note.md"); Write (str "note.md") (str "Hello");
            Write (str "note.md") (placeholder default_model);
            Truncate (str "note.md"); Write (str "note.md") (str "Hello");
            Write (str "note.md")
                  (nl ++ nl ++ str "---" ++ nl ++ nl ++ str "Hi!" ++ nl ++ nl
                      ++ str "---" ++ nl ++ nl)].
Proof.
  exact (process_markdown_success (answering_client (str "Hi!"))
           (str "note.md") None (str "Hello" ++ [CR; LF]) (str "Hi!")
           (note_world _) eq_refl eq_refl).
Defined.

Lemma read_only_raises (ChatAPI : result ChatClient) (file_path : path)
    (model : option text) (raw : text) (w : world) :
  files w file_path = ReadOnly raw ->
  process_markdown ChatAPI file_path model w
  = (Raise (PermissionError file_path), w).
Proof.
  intros H.
  unfold process_markdown, parse_markdown_file, try_except, read_r, insert,
    read_rw.
  unfold bind at 1 2 3. rewrite H. cbn [ret].
  unfold bind. now rewrite H.
Qed.

(** X2.  A file that can be read but not written is parsed, then the open
    for writing raises [PermissionError]: the exception leaves
    [process_markdown], the client is never called and nothing is written. *)
Theorem process_markdown_read_only (ChatAPI : result ChatClient)
    (file_path : path) (model : option text) (raw : text)
    (content := universal_newlines raw) (w : world)
    (H : files w file_path = ReadOnly raw) :
  fst (parse_markdown_file file_path w) = Return (Some (parse_content content))
  /\ process_markdown ChatAPI file_path model w
     = (Raise (PermissionError file_path), w).
Proof.
  split; [|exact (read_only_raises ChatAPI file_path model raw w H)].
  unfold parse_markdown_file, try_except, read_r, bind. now rewrite H.
Qed.

Lemma process_markdown_read_only_witness :
  process_markdown (Return (answering_client (str "Hi!"))) (str "note.md")
                   None (note_world (ReadOnly (str "Hello")))
  = (Raise (PermissionError (str "note.md")),
     note_world (ReadOnly (str "Hello"))).
Proof.
  exact (proj2 (process_markdown_read_only
                  (Return (answering_client (str "Hi!"))) (str "note.md")
                  None (str "Hello") (note_world _) eq_refl)).
Defined.

(** X3.  When the construction of the client raises, the exception leaves
    [process_markdown] after the insert rewrite and before any resolve: the
    file keeps the placeholder block at its end. *)
Theorem process_markdown_constructor_failure (e : exn) (file_path : path)
    (model : option text) (raw : text) (content := universal_newlines raw)
    (w : world)
    (H : files w file_path = ReadWrite raw) :
  exists w1,
    process_markdown (Raise e) file_path model w = (Raise e, w1)
    /\ files w1 file_path
       = ReadWrite (scrub_lines content
                      ++ placeholder (model_or_default model))
    /\ (forall q, text_eqb q file_path = false -> files w1 q = files w q)
    /\ journal w1
       = journal w ++ [Truncate file_path;
                       Write file_path (scrub_lines content);
                       Write file_path
                             (placeholder (model_or_default model))].
Proof.
  destruct (process_markdown_marked file_path model raw w H)
    as (w1 & E & F1 & O1 & J1 & C1).
  exists w1. split; [|auto]. rewrite E. reflexivity.
Qed.

Lemma process_markdown_constructor_failure_witness :
  exists w1,
    process_markdown (Raise (ClientError (str "no API key"))) (str "note.md")
                     (Some (str "m")) (note_world (ReadWrite (str "Hello")))
    = (Raise (ClientError (str "no API key")), w1)
    /\ files w1 (str "note.md")
       = ReadWrite (str "Hello" ++ placeholder (str "m"))
    /\ (forall q, text_eqb q (str "note.md") = false ->
                  files w1 q = files (note_world (ReadWrite (str "Hello"))) q)
    /\ journal w1
       = [] ++ [Truncate (str "note.md");
                Write (str "note.md") (str "Hello");
                Write (str "note.md") (placeholder (str "m"))].
Proof.
  exact (process_markdown_constructor_failure (ClientError (str "no API key"))
           (str "note.md") (Some (str "m")) (str "Hello") (note_world _)
           eq_refl).
Defined.

(** X4.  The driver asks one thing of the client: the answer of
    [send_message] to the filtered messages of the content as it was before
    any rewrite, the model (the default one when none or an empty one is
    given), the limit 2000 and the system message.  Two clients that agree on
    that call make the same run. *)
Theorem process_markdown_one_call (chat1 chat2 : ChatClient)
    (file_path : path) (model : option text) (raw : text)
    (content := universal_newlines raw) (w : world)
    (H : files w file_path = ReadWrite raw \/
         files w file_path = ReadOnly raw)
    (Hcall : send_message chat1 (filter_messages (parse_content content))
               (model_or_default model) 2000 system_message
             = send_message chat2 (filter_messages (parse_content content))
                 (model_or_default model) 2000 system_message) :
  process_markdown (Return chat1) file_path model w
  = process_markdown (Return chat2) file_path model w.
Proof.
  destruct H as [H | H].
  - destruct (process_markdown_marked file_path model raw w H)
      as (w1 & E & _).
    rewrite !E. unfold try_except, bind. fold content. now rewrite Hcall.
  - now rewrite !(read_only_raises _ file_path model raw w H).
Qed.

Lemma process_markdown_one_call_witness :
  process_markdown (Return (answering_client (str "Hi!"))) (str "note.md")
                   None (note_world (ReadWrite (str "Hello")))
  = process_markdown
      (Return {| send_message := fun messages _ _ _ =>
                   match messages with
                   | [_] => Return (str "Hi!")
                   | _ => Raise (ClientError (str "unexpected"))
                   end |})
      (str "note.md") None (note_world (ReadWrite (str "Hello"))).
Proof.
  exact (process_markdown_one_call (answering_client (str "Hi!")) _
           (str "note.md") None (str "Hello") (note_world _)
           (or_introl eq_refl) eq_refl).
Defined.

(** * Further properties of [main] *)

(** [main] on a command line of two or three arguments: it runs
    [process_markdown] after the preamble and reports on its result. *)
Lemma main_run (ChatAPI : result ChatClient) (script : text)
    (file_path : path) (model : option text) (w : world) :
  main ChatAPI (argv_for script file_path model) w
  = match process_markdown ChatAPI file_path model
            (log w (preamble file_path model)) with
    | (Raise e, w1) => (Uncaught e, w1)
    | (Return result, w1) =>
        if truthy result
        then (Finished, log w1 [LogInfo success_line; Print success_line])
        else (Finished, log w1 [LogError failure_line])
    end.
Proof.
  assert (W : forall a b c,
             World (files w) (journal w) (((console w ++ [a]) ++ [b]) ++ [c])
             = log w [a; b; c]).
  { intros a b c. unfold log. now rewrite <- !app_assoc. }
  assert (L : forall w1 a b,
             World (files w1) (journal w1) ((console w1 ++ [a]) ++ [b])
             = log w1 [a; b]).
  { intros w1 a b. unfold log. now rewrite <- !app_assoc. }
  destruct model as [mdl|]; unfold main, argv_for, emit, preamble, model_line;
    cbn [length Nat.ltb Nat.leb Nat.eqb orb nth files journal console];
    unfold bind at 1; cbn [files journal console]; rewrite W;
    match goal with
    | |- context [process_markdown ?a ?b ?c ?d] =>
        destruct (process_markdown a b c d) as [[r | e] w1]
    end; try reflexivity;
    destruct (truthy r); cbn [files journal console];
    try rewrite L; reflexivity.
Qed.

(** X5.  A command line with fewer than two or more than three arguments
    makes [main] log two error lines and exit with status 1; no file is
    opened, truncated or written and the client is not used. *)
Theorem main_wrong_argument_count (ChatAPI : result ChatClient)
    (argv : list text) (w : world)
    (H : (length argv <? 2) || (3 <? length argv) = true) :
  main ChatAPI argv w
  = (SysExit 1,
     log w [LogInfo (str "Starting chat_with_note script");
            LogError (str "Invalid number of arguments");
            LogError (str "Usage: python script_name.py <path_to_markdown_file> [model]")]).
Proof.
  unfold main, emit, log. cbn [files journal console]. rewrite H.
  now rewrite <- !app_assoc.
Qed.

Lemma main_wrong_argument_count_witness :
  main (Return (answering_client (str "Hi!")))
       [str "obsidian_note_chat.py"]
       (note_world (ReadWrite (str "Hello")))
  = (SysExit 1,
     log (note_world (ReadWrite (str "Hello")))
         [LogInfo (str "Starting chat_with_note script");
          LogError (str "Invalid number of arguments");
          LogError (str "Usage: python script_name.py <path_to_markdown_file> [model]")]).
Proof.
  exact (main_wrong_argument_count (Return (answering_client (str "Hi!")))
           [str "obsidian_note_chat.py"] (note_world _) eq_refl).
Defined.

(** X6.  With a writable file and a client that answers a response that is
    not empty, [main] returns normally, the success line is logged and
    printed after the preamble, and the file holds the text the insert
    rewrite left, as it reads back, stripped and without the marker,
    followed by the response between two delimiters. *)
Theorem main_success (chat : ChatClient) (script : text) (file_path : path)
    (model : option text) (raw response : text)
    (content := universal_newlines raw) (w : world)
    (H : files w file_path = ReadWrite raw)
    (Hsend : send_message chat (filter_messages (parse_content content))
                          (model_or_default model) 2000 system_message
             = Return response)
    (Ht : truthy (Some response) = true) :
  exists w',
    main (Return chat) (argv_for script file_path model) w = (Finished, w')
    /\ files w' file_path
       = ReadWrite
           (replace (strip (universal_newlines
                              (scrub_lines content
                                 ++ placeholder (model_or_default model))))
                    (marker (model_or_default model)) []
              ++ nl ++ nl ++ str "---" ++ nl ++ nl ++ response ++ nl ++ nl
              ++ str "---" ++ nl ++ nl)
    /\ console w'
       = console w ++ preamble file_path model
                   ++ [LogInfo success_line; Print success_line].
Proof.
  destruct (driver_success_run chat file_path model raw response
              (log w (preamble file_path model)) H Hsend)
    as (w1 & E & F & _ & _ & C).
  exists (log w1 [LogInfo success_line; Print success_line]).
  rewrite main_run, E, Ht. split; [reflexivity|]. split; [exact F|].
  cbn [log console]. rewrite C. cbn [log console]. now rewrite <- app_assoc.
Qed.

Lemma main_success_witness :
  exists w',
    main (Return (answering_client (str "Hi!")))
         (argv_for (str "obsidian_note_chat.py") (str "note.md")
                   (Some (str "m")))
         (note_world (ReadWrite (str "Hello")))
    = (Finished, w')
    /\ files w' (str "note.md")
       = ReadWrite (str "Hello" ++ nl ++ nl ++ str "---" ++ nl ++ nl
                        ++ str "Hi!" ++ nl ++ nl ++ str "---" ++ nl ++ nl)
    /\ console w'
       = [] ++ preamble (str "note.md") (Some (str "m"))
            ++ [LogInfo success_line; Print success_line].
Proof.
  exact (main_success (answering_client (str "Hi!"))
           (str "obsidian_note_chat.py") (str "note.md") (Some (str "m"))
           (str "Hello") (str "Hi!") (note_world _) eq_refl eq_refl eq_refl).
Defined.

(** X7.  When the file cannot be read, [main] logs the failure line after
    the preamble and returns normally (the exit status is 0); no file is
    changed and nothing is printed. *)
Theorem main_missing_file (ChatAPI : result ChatClient) (script : text)
    (file_path : path) (model : option text) (w : world)
    (H : files w file_path = Missing) :
  main ChatAPI (argv_for script file_path model) w
  = (Finished, log w (preamble file_path model ++ [LogError failure_line])).
Proof.
  rewrite main_run,
    (missing_returns_none ChatAPI file_path model
       (log w (preamble file_path model)) H).
  cbn [truthy]. unfold log. cbn [files journal console].
  now rewrite <- app_assoc.
Qed.

Lemma main_missing_file_witness :
  main (Return (answering_client (str "Hi!")))
       (argv_for (str "obsidian_note_chat.py") (str "note.md") None)
       (note_world Missing)
  = (Finished,
     log (note_world Missing)
         (preamble (str "note.md") None ++ [LogError failure_line])).
Proof.
  exact (main_missing_file (Return (answering_client (str "Hi!")))
           (str "obsidian_note_chat.py") (str "note.md") None (note_world _)
           eq_refl).
Defined.

(** X8.  When [send_message] raises, [main] returns normally (the exit
    status is 0), the failure line is logged after the preamble, nothing is
    printed, and the file holds the text the insert rewrite left, as it
    reads back, stripped and without the marker, followed by the error
    block: the delimiter, "Error: " with the text of the exception, and the
    delimiter, each after two line feeds, and two line feeds. *)
Theorem main_call_failure (chat : ChatClient) (script : text)
    (file_path : path) (model : option text) (raw : text)
    (content := universal_newlines raw) (e : exn) (w : world)
    (H : files w file_path = ReadWrite raw)
    (Hsend : send_message chat (filter_messages (parse_content content))
                          (model_or_default model) 2000 system_message
             = Raise e) :
  exists w',
    main (Return chat) (argv_for script file_path model) w = (Finished, w')
    /\ files w' file_path
       = ReadWrite
           (replace (strip (universal_newlines
                              (scrub_lines content
                                 ++ placeholder (model_or_default model))))
                    (marker (model_or_default model)) []
              ++ nl ++ nl ++ str "---" ++ nl ++ nl ++ str "Error: "
              ++ exn_str e ++ nl ++ nl ++ str "---" ++ nl ++ nl)
    /\ console w'
       = console w ++ preamble file_path model ++ [LogError failure_line].
Proof.
  destruct (driver_failure_run chat file_path model raw e
              (log w (preamble file_path model)) H Hsend)
    as (w1 & E & F & _ & _ & C).
  exists (log w1 [LogError failure_line]).
  rewrite main_run, E. cbn [truthy]. split; [reflexivity|]. split; [exact F|].
  cbn [log console]. rewrite C. cbn [log console]. now rewrite <- app_assoc.
Qed.

Lemma main_call_failure_witness :
  exists w',
    main (Return (failing_client (str "timeout")))
         (argv_for (str "obsidian_note_chat.py") (str "note.md") None)
         (note_world (ReadWrite (str "Hello")))
    = (Finished, w')
    /\ files w' (str "note.md")
       = ReadWrite (str "Hello" ++ nl ++ nl ++ str "---" ++ nl ++ nl
                        ++ str "Error: " ++ str "timeout" ++ nl ++ nl
                        ++ str "---" ++ nl ++ nl)
    /\ console w'
       = [] ++ preamble (str "note.md") None ++ [LogError failure_line].
Proof.
  exact (main_call_failure (failing_client (str "timeout"))
           (str "obsidian_note_chat.py") (str "note.md") None (str "Hello")
           (ClientError (str "timeout")) (note_world _) eq_refl eq_refl).
Defined.

(** X9.  With a file that can be read but not written, [main] ends on an
    uncaught [PermissionError]: neither the success nor the failure line is
    emitted and no file is changed. *)
Theorem main_read_only (ChatAPI : result ChatClient) (script : text)
    (file_path : path) (model : option text) (raw : text) (w : world)
    (H : files w file_path = ReadOnly raw) :
  main ChatAPI (argv_for script file_path model) w
  = (Uncaught (PermissionError file_path), log w (preamble file_path model)).
Proof.
  now rewrite main_run,
    (read_only_raises ChatAPI file_path model raw
       (log w (preamble file_path model)) H).
Qed.

Lemma main_read_only_witness :
  main (Return (answering_client (str "Hi!")))
       (argv_for (str "obsidian_note_chat.py") (str "note.md") None)
       (note_world (ReadOnly (str "Hello")))
  = (Uncaught (PermissionError (str "note.md")),
     log (note_world (ReadOnly (str "Hello")))
         (preamble (str "note.md") None)).
Proof.
  exact (main_read_only (Return (answering_client (str "Hi!")))
           (str "obsidian_note_chat.py") (str "note.md") None (str "Hello")
           (note_world _) eq_refl).
Defined.

(** * Further properties of the parser *)

Section ParserInvariants.

Lemma lstrip_nonspace (c : char) (x : text) :
  is_space c = false -> lstrip (c :: x) = c :: x.
Proof. intros H. cbn [lstrip]. now rewrite H. Qed.

Lemma rstrip_cons_nonspace (c : char) (x : text) :
  is_space c = false -> rstrip (c :: x) = c :: rstrip x.
Proof.
  intros H. change (c :: x) with ([c] ++ x). rewrite rstrip_app.
  destruct (all_space x) eqn:E.
  - unfold rstrip at 1. cbn. rewrite H. cbn.
    unfold rstrip. rewrite lstrip_all_space; [reflexivity|].
    now rewrite all_space_rev.
  - reflexivity.
Qed.

Lemma rstrip_idem (s : text) : rstrip (rstrip s) = rstrip s.
Proof.
  unfold rstrip. rewrite rev_involutive. f_equal.
  destruct (lstrip (rev s)) as [|c x] eqn:E; [reflexivity|].
  apply lstrip_nonspace. exact (lstrip_head _ _ _ E).
Qed.

(** Stripping twice is stripping once. *)
Lemma strip_idem (s : text) : strip (strip s) = strip s.
Proof.
  unfold strip. destruct (lstrip s) as [|c x] eqn:E; [reflexivity|].
  pose proof (lstrip_head _ _ _ E) as Hc.
  rewrite (rstrip_cons_nonspace c x Hc), (lstrip_nonspace c _ Hc).
  rewrite <- (rstrip_cons_nonspace c x Hc). apply rstrip_idem.
Qed.

Lemma block_in_split (sep : text) (Hsep : sep <> []) (s b : text) (j : nat) :
  nth_error (split s sep) j = Some b -> contains sep b = false.
Proof.
  intros H. apply nth_error_In in H.
  exact (proj1 (Forall_forall _ _) (split_pieces_absent sep Hsep s) b H).
Qed.

Lemma block_messages_nil (i : nat) (bs : list text) :
  block_messages i bs = [] <-> forallb blank bs = true.
Proof.
  split; [|apply block_messages_blank].
  revert i; induction bs as [|b bs IH]; intros i; [reflexivity|].
  cbn [block_messages forallb]. unfold blank at 1.
  destruct (strip b); [apply IH | discriminate].
Qed.

Lemma block_messages_length (i : nat) (bs : list text) :
  length (block_messages i bs) <= length bs.
Proof.
  revert i; induction bs as [|b bs IH]; intros i; cbn [block_messages length];
    [lia|].
  specialize (IH (S i)). destruct (strip b); cbn [length]; lia.
Qed.

End ParserInvariants.

(** X10.  The content of every parsed message is its own stripped form (it
    has no white space at either end) and holds no delimiter; when the text
    has a delimiter, the content is moreover not empty. *)
Theorem parse_content_contents (s : text) (msg : message) :
  In msg (parse_content s) ->
  strip (content msg) = content msg
  /\ contains delimiter (content msg) = false
  /\ (contains delimiter s = true -> content msg <> []).
Proof.
  intros I. destruct (contains delimiter s) eqn:C.
  - rewrite (parse_content_delimited _ C) in I.
    apply block_messages_In in I as (j & b & N & B & ->). cbn [content].
    split; [apply strip_idem|]. split.
    + apply contains_false_strip.
      exact (block_in_split delimiter delimiter_nonempty s b j N).
    + intros _ E. unfold blank in B. now rewrite E in B.
  - rewrite (proj1 (single_user_message s C)) in I.
    destruct I as [<- | []]. cbn [content].
    split; [apply strip_idem|]. split; [|discriminate].
    now apply contains_false_strip.
Qed.

Lemma parse_content_contents_witness :
  strip (str "A1") = str "A1"
  /\ contains delimiter (str "A1") = false
  /\ (contains delimiter (str " Q1 --- A1 ---") = true -> str "A1" <> []).
Proof.
  exact (parse_content_contents (str " Q1 --- A1 ---")
           (Message assistant (str "A1")) (or_intror (or_introl eq_refl))).
Defined.

(** X11.  Parsing yields no message at all exactly when the text has a
    delimiter and every block is blank; a text without delimiter always
    yields one message.  There are never more messages than blocks. *)
Theorem parse_content_empty (s : text) :
  (parse_content s = [] <->
   contains delimiter s = true /\ forallb blank (split s delimiter) = true)
  /\ length (parse_content s) <= length (split s delimiter).
Proof.
  destruct (contains delimiter s) eqn:C.
  - rewrite (parse_content_delimited _ C). split.
    + rewrite block_messages_nil. tauto.
    + apply block_messages_length.
  - rewrite (proj1 (single_user_message s C)), (split_absent _ _ C). split.
    + split; [discriminate | intros [? _]; discriminate].
    + cbn [length]. lia.
Qed.

(** ** White space around a text *)

Section OuterSpace.

Variable sep : text.
Hypothesis Hsep : sep <> [].

(** No character of [w] occurs in [sep]. *)
Let foreign (w : text) : Prop :=
  Forall (fun c => existsb (char_eqb c) sep = false) w.

Lemma split_cons_foreign (c : char) (z : text) :
  existsb (char_eqb c) sep = false ->
  split (c :: z) sep
  = match split z sep with
    | [] => []
    | first :: rest => (c :: first) :: rest
    end.
Proof.
  intros Hc. rewrite (split_eqn sep Hsep (c :: z)), (split_eqn sep Hsep z).
  pose proof (find_app_foreign sep c Hsep Hc [] z) as F. cbn [app] in F.
  assert (N0 : find sep [] = None).
  { cbn [find]. destruct sep; [congruence | reflexivity]. }
  rewrite N0 in F. rewrite F.
  destruct (find sep z) as [[u v]|]; reflexivity.
Qed.

Lemma split_app_foreign_l (w z : text) :
  foreign w ->
  split (w ++ z) sep
  = match split z sep with
    | [] => []
    | first :: rest => (w ++ first) :: rest
    end.
Proof.
  induction 1 as [|c w Hc _ IH]; cbn [app].
  - destruct (split z sep); reflexivity.
  - rewrite (split_cons_foreign c (w ++ z) Hc), IH.
    destruct (split z sep); reflexivity.
Qed.

Lemma split_app_foreign_r (x w : text) :
  foreign w ->
  split (x ++ w) sep
  = removelast (split x sep) ++ [last (split x sep) [] ++ w].
Proof.
  intros Hw. destruct Hw as [|c w Hc Hw].
  - rewrite !app_nil_r. apply app_removelast_last, split_nonempty.
  - rewrite (split_app_foreign sep c Hsep Hc).
    pose proof (split_app_foreign_l (c :: w) [] (Forall_cons c Hc Hw)) as E.
    rewrite app_nil_r in E. rewrite E.
    assert (N : split [] sep = [[]]) by reflexivity.
    rewrite N, app_nil_r. reflexivity.
Qed.

End OuterSpace.

Lemma space_foreign_to_delimiter (w : text) :
  all_space w = true ->
  Forall (fun c => existsb (char_eqb c) delimiter = false) w.
Proof.
  intros H. apply Forall_forall. intros c I.
  unfold all_space in H. rewrite forallb_forall in H. specialize (H c I).
  cbn. destruct (char_eqb c 45%N) eqn:E; [|reflexivity].
  apply char_eqb_eq in E. subst c. discriminate.
Qed.

Lemma block_messages_head_space (i : nat) (w first : text)
    (rest : list text) :
  all_space w = true ->
  block_messages i ((w ++ first) :: rest) = block_messages i (first :: rest).
Proof.
  intros H. cbn [block_messages]. now rewrite (strip_app_ws_l w first H).
Qed.

Lemma parse_content_space_l (w s : text) :
  all_space w = true -> parse_content (w ++ s) = parse_content s.
Proof.
  intros H. unfold parse_content.
  rewrite (split_app_foreign_l delimiter delimiter_nonempty w s
             (space_foreign_to_delimiter w H)).
  rewrite (strip_app_ws_l w s H).
  pose proof (split_nonempty delimiter s) as NE.
  destruct (split s delimiter) as [|first rest]; [congruence|].
  cbn [length]. destruct (Nat.eqb (S (length rest)) 1); [reflexivity|].
  now apply block_messages_head_space.
Qed.

Lemma parse_content_space_r (s w : text) :
  all_space w = true -> parse_content (s ++ w) = parse_content s.
Proof.
  intros H. unfold parse_content.
  rewrite (split_app_foreign_r delimiter delimiter_nonempty s w
             (space_foreign_to_delimiter w H)).
  rewrite (strip_app_ws_r s w H).
  assert (E : exists RL b, split s delimiter = RL ++ [b]).
  { exists (removelast (split s delimiter)), (last (split s delimiter) []).
    apply app_removelast_last, split_nonempty. }
  destruct E as (RL & b & ->). rewrite removelast_last, last_last.
  rewrite !length_app. cbn [length].
  destruct (Nat.eqb (length RL + 1) 1); [reflexivity|].
  rewrite !block_messages_app. f_equal.
  cbn [block_messages]. now rewrite (strip_app_ws_r b w H).
Qed.

(** X12.  White space before the first block and after the last one is
    immaterial to the parser: a text parses as its stripped form does. *)
Theorem parse_content_outer_space (w1 s w2 : text)
    (H1 : all_space w1 = true) (H2 : all_space w2 = true) :
  parse_content (w1 ++ s ++ w2) = parse_content s
  /\ parse_content (strip s) = parse_content s.
Proof.
  split.
  - now rewrite parse_content_space_l, parse_content_space_r.
  - destruct (strip_decomp s) as (a & b & Ha & Hb & E).
    rewrite E at 2.
    now rewrite parse_content_space_l, parse_content_space_r.
Qed.

Lemma parse_content_outer_space_witness :
  parse_content (nl ++ str " " ++ str "Q1---A1" ++ str " " ++ nl)
  = parse_content (str "Q1---A1").
Proof.
  exact (proj1 (parse_content_outer_space (nl ++ str " ") (str "Q1---A1")
                  (str " " ++ nl) eq_refl eq_refl)).
Defined.

(** * What the client is sent, and what the insert rewrite keeps *)

(** X13.  In a text with a delimiter, the messages that survive parsing and
    filtering are those of the blocks that are not blank and whose stripped
    text is not a control marker, each with the role of its block index. *)
Theorem sent_messages (s : text) (msg : message)
    (Hd : contains delimiter s = true) :
  In msg (filter_messages (parse_content s)) <->
  exists j b, nth_error (split s delimiter) j = Some b
              /\ blank b = false
              /\ ~ In (strip b) control_markers
              /\ msg = Message (role_of_index j) (strip b).
Proof.
  unfold filter_messages. rewrite filter_In, (parse_content_delimited _ Hd).
  rewrite block_messages_In. cbn [Nat.add]. split.
  - intros [(j & b & N & B & ->) K]. exists j, b. repeat split; auto.
    cbn [content] in K. rewrite strip_idem in K. intros I.
    apply in_list_In in I. now rewrite I in K.
  - intros (j & b & N & B & K & ->). split; [exists j, b; auto|].
    cbn [content]. rewrite strip_idem.
    destruct (in_list (strip b) control_markers) eqn:E; [|reflexivity].
    apply in_list_In in E. contradiction.
Qed.

Lemma sent_messages_witness :
  In (Message assistant (str "A1"))
     (filter_messages (parse_content (str "Q1--- A1 ---cc")))
  <-> exists j b,
        nth_error (split (str "Q1--- A1 ---cc") delimiter) j = Some b
        /\ blank b = false
        /\ ~ In (strip b) control_markers
        /\ Message assistant (str "A1") = Message (role_of_index j) (strip b).
Proof.
  exact (sent_messages (str "Q1--- A1 ---cc") (Message assistant (str "A1"))
           eq_refl).
Defined.

Lemma scrub_lines_split (content : text) :
  split (scrub_lines content) nl
  = match filter (fun line => negb (in_list (strip line) control_markers))
                 (split (strip content) nl) with
    | [] => [[]]
    | kept => kept
    end.
Proof.
  unfold scrub_lines.
  set (kept := filter _ (split (strip content) nl)).
  assert (F : Forall (fun l => contains nl l = false) kept).
  { apply incl_Forall with (l1 := split (strip content) nl).
    - apply incl_filter.
    - apply split_pieces_absent. discriminate. }
  destruct kept as [|l ls]; [reflexivity|].
  apply split_join_char; [discriminate | exact F].
Qed.

(** X14.  After the insert rewrite no line of the text before the
    placeholder block is a control marker, with or without white space
    around it. *)
Theorem insert_leaves_no_control_line (content line : text) :
  In line (split (scrub_lines content) nl) ->
  in_list (strip line) control_markers = false.
Proof.
  rewrite scrub_lines_split. intros I.
  destruct (in_list (strip line) control_markers) eqn:K; [|reflexivity].
  exfalso.
  destruct (filter (fun l => negb (in_list (strip l) control_markers))
                   (split (strip content) nl)) as [|l ls] eqn:E.
  - destruct I as [<- | []]. discriminate.
  - rewrite <- E in I. apply filter_In in I as [_ I]. now rewrite K in I.
Qed.

Lemma insert_leaves_no_control_line_witness :
  in_list (strip (str " c1 please")) control_markers = false.
Proof.
  exact (insert_leaves_no_control_line
           (str "Q1" ++ nl ++ str "cc" ++ nl ++ str " c1 please")
           (str " c1 please") (or_intror (or_introl eq_refl))).
Defined.

Lemma filter_all {A} (f : A -> bool) (l : list A) :
  forallb f l = true -> filter f l = l.
Proof.
  induction l as [|a l IH]; cbn; [reflexivity|].
  intros H. apply andb_true_iff in H as [-> H]. now rewrite IH.
Qed.

(** X15.  When no line of the stripped content is a control marker, the
    insert rewrite changes nothing but the outer white space: the file
    becomes the stripped content followed by the placeholder block. *)
Theorem insert_without_control_lines (p : path) (model raw : text)
    (content := universal_newlines raw) (w : world)
    (H : files w p = ReadWrite raw)
    (Hc : forallb (fun line => negb (in_list (strip line) control_markers))
                  (split (strip content) nl) = true) :
  rewrites (insert p model) w p tt (strip content ++ placeholder model)
           [Truncate p; Write p (strip content); Write p (placeholder model)].
Proof.
  pose proof (insert_run p model raw w H) as R. subst content.
  assert (E : scrub_lines (universal_newlines raw)
              = strip (universal_newlines raw)).
  { unfold scrub_lines. rewrite (filter_all _ _ Hc).
    apply join_split. discriminate. }
  unfold insert_text in R. now rewrite E in R.
Qed.

Lemma insert_without_control_lines_witness :
  rewrites (insert (str "note.md") (str "m"))
           (note_world (ReadWrite (nl ++ str "Q1" ++ nl ++ nl ++ str "c1 please"
                                      ++ nl)))
           (str "note.md") tt
           (str "Q1" ++ nl ++ nl ++ str "c1 please" ++ placeholder (str "m"))
           [Truncate (str "note.md");
            Write (str "note.md") (str "Q1" ++ nl ++ nl ++ str "c1 please");
            Write (str "note.md") (placeholder (str "m"))].
Proof.
  exact (insert_without_control_lines (str "note.md") (str "m")
           (nl ++ str "Q1" ++ nl ++ nl ++ str "c1 please" ++ nl)
           (note_world _) eq_refl eq_refl).
Defined.

(** * The placeholder from insertion to resolution *)

Section ReadBack.

Lemma In_lstrip (c : char) (s : text) : In c (lstrip s) -> In c s.
Proof.
  destruct (lstrip_decomp s) as (w & _ & E). intros I. rewrite E.
  apply in_or_app. now right.
Qed.

Lemma In_strip (c : char) (s : text) : In c (strip s) -> In c s.
Proof.
  destruct (strip_decomp s) as (w1 & w2 & _ & _ & E). intros I. rewrite E.
  apply in_or_app. right. apply in_or_app. now left.
Qed.

Lemma In_join_piece (c : char) (sep : text) (ps : list text) (p : text) :
  In p ps -> In c p -> In c (join sep ps).
Proof.
  induction ps as [|q ps IH]; [intros []|]. intros I Ic.
  destruct ps as [|q' ps].
  - destruct I as [-> | []]. exact Ic.
  - rewrite join_cons by discriminate. apply in_or_app.
    destruct I as [-> | I]; [now left|].
    right. apply in_or_app. right. now apply IH.
Qed.

Lemma In_join (c : char) (sep : text) (ps : list text) :
  In c (join sep ps) -> In c sep \/ exists p, In p ps /\ In c p.
Proof.
  induction ps as [|q ps IH]; [intros []|]. intros I.
  destruct ps as [|q' ps].
  - right. exists q. split; [now left | exact I].
  - rewrite join_cons in I by discriminate.
    apply in_app_or in I as [I | I]; [right; exists q; split; auto; now left|].
    apply in_app_or in I as [I | I]; [now left|].
    destruct (IH I) as [L | (p & Ip & Ic)]; [now left|].
    right. exists p. split; [now right | exact Ic].
Qed.

Lemma In_split_piece (c : char) (sep : text) (Hsep : sep <> []) (s p : text) :
  In p (split s sep) -> In c p -> In c s.
Proof.
  intros Ip Ic. rewrite <- (join_split sep Hsep s).
  exact (In_join_piece c sep _ p Ip Ic).
Qed.

(** The scrubbed text holds no character that the content does not hold,
    the line feed apart. *)
Lemma In_scrub_lines (c : char) (s : text) :
  In c (scrub_lines s) -> c = LF \/ In c s.
Proof.
  unfold scrub_lines. intros I.
  apply In_join in I as [[<- | []] | (p & Ip & Ic)]; [now left|].
  right. apply filter_In in Ip as [Ip _]. apply In_strip.
  apply (In_split_piece c nl ltac:(discriminate) _ p Ip Ic).
Qed.

Lemma no_CR_scrub_lines (s : text) :
  no_CR s = true -> no_CR (scrub_lines s) = true.
Proof.
  rewrite !no_CR_In. intros H I.
  apply In_scrub_lines in I as [E | I]; [discriminate | contradiction].
Qed.

Lemma no_CR_lstrip (s : text) : no_CR s = true -> no_CR (lstrip s) = true.
Proof.
  rewrite !no_CR_In. intros H I. apply H. now apply In_lstrip.
Qed.

Lemma no_CR_strip (s : text) : no_CR s = true -> no_CR (strip s) = true.
Proof.
  rewrite !no_CR_In. intros H I. apply H. now apply In_strip.
Qed.

Lemma single_line_no_CR (m : text) : single_line m = true -> no_CR m = true.
Proof.
  unfold single_line, no_CR. rewrite !forallb_forall. intros H c I.
  specialize (H c I). destruct (char_eqb c CR); [|reflexivity].
  now rewrite orb_true_r in H.
Qed.

Lemma no_CR_placeholder (m : text) :
  single_line m = true -> no_CR (placeholder m) = true.
Proof.
  intros H. unfold placeholder. rewrite !no_CR_app.
  now rewrite (single_line_no_CR m H).
Qed.

(** What the insert rewrite writes reads back unchanged, for a model name
    of one line. *)
Lemma inserted_reads_back (content m : text) :
  no_CR content = true -> single_line m = true ->
  universal_newlines (insert_text content m) = insert_text content m.
Proof.
  intros Hc Hm. apply universal_newlines_id. unfold insert_text.
  now rewrite no_CR_app, (no_CR_scrub_lines _ Hc), (no_CR_placeholder _ Hm).
Qed.

End ReadBack.

Section Placeholder.

Variable model : text.

Lemma contains_short (sep s : text) :
  length s < length sep -> contains sep s = false.
Proof.
  intros L. apply contains_false. intros u v E.
  apply (f_equal (@length _)) in E. rewrite !length_app in E. lia.
Qed.

Lemma marker_not_space : all_space (marker model) = false.
Proof. reflexivity. Qed.

Lemma rstrip_marker (x : text) : rstrip (x ++ marker model) = x ++ marker model.
Proof.
  unfold marker. rewrite !app_assoc. rewrite rstrip_app.
  reflexivity.
Qed.

Lemma strip_ends_kept (z : text) (a : char) (x : text) :
  z ++ str "..." = a :: x -> is_space a = false ->
  strip (z ++ str "...") = z ++ str "...".
Proof.
  intros E Ha. unfold strip. rewrite E. cbn [lstrip]. rewrite Ha, <- E.
  now rewrite rstrip_app.
Qed.

(** What [strip] makes of the file the insert rewrite left, when the text
    before the placeholder is blank and when it is not. *)
Lemma strip_inserted_blank (body : text) :
  all_space body = true ->
  strip (body ++ placeholder model)
  = str "---" ++ nl ++ nl ++ str "Calling " ++ model ++ str "...".
Proof.
  intros H. rewrite (strip_app_ws_l body _ H).
  replace (placeholder model)
    with ((nl ++ nl) ++ (str "---" ++ nl ++ nl ++ str "Calling " ++ model
                             ++ str "...") ++ nl)
    by (unfold placeholder; now rewrite <- !app_assoc).
  rewrite strip_app_ws_l, strip_app_ws_r by reflexivity.
  rewrite !app_assoc.
  eapply strip_ends_kept; [rewrite <- !app_assoc; reflexivity | reflexivity].
Qed.

Lemma strip_inserted (body : text) :
  all_space body = false ->
  strip (body ++ placeholder model) = lstrip body ++ marker model.
Proof.
  intros H. unfold strip. rewrite lstrip_app, H.
  replace (placeholder model) with (marker model ++ nl)
    by (unfold placeholder, marker; now rewrite <- !app_assoc).
  rewrite !app_assoc, rstrip_app_ws by reflexivity.
  apply rstrip_marker.
Qed.

End Placeholder.

Section MarkerAtEnd.

Variable model : text.
Hypothesis Hmodel : single_line model = true.

Lemma foreign_prefix (c : char) (r t x v : text) :
  ~ In c r -> t ++ c :: x = r ++ v -> exists w, t = r ++ w.
Proof.
  revert t; induction r as [|a r IH]; intros t N E.
  - exists t. reflexivity.
  - destruct t as [|b t]; cbn [app] in E.
    + injection E as -> _. exfalso. apply N. now left.
    + injection E as -> E.
      destruct (IH t (fun I => N (or_intror I)) E) as (w & ->).
      exists w. reflexivity.
Qed.

Lemma model_without_LF : ~ In LF model.
Proof.
  intros I. unfold single_line in Hmodel. rewrite forallb_forall in Hmodel.
  specialize (Hmodel LF I). discriminate.
Qed.

(** The marker does not overlap itself: a text that ends where a later
    occurrence of the marker starts holds the whole marker. *)
Lemma marker_overlap (t v : text) :
  t <> [] -> t ++ marker model = marker model ++ v ->
  exists w, t = marker model ++ w.
Proof.
  intros Ht E.
  remember (str "alling " ++ model ++ str "...") as r eqn:Hr.
  assert (N : ~ In 10%N (67%N :: r)).
  { intros [I | I]; [discriminate|]. rewrite Hr in I.
    apply in_app_or in I as [I | I];
      [cbn in I; intuition discriminate|].
    apply in_app_or in I as [I | I];
      [exact (model_without_LF I) | cbn in I; intuition discriminate]. }
  assert (M : marker model
              = 10%N :: 10%N :: 45%N :: 45%N :: 45%N :: 10%N :: 10%N
                     :: 67%N :: r) by (rewrite Hr; reflexivity).
  rewrite M in *. clear M Hr.
  do 7 (destruct t as [|? t];
        [try congruence; cbn [app] in E; discriminate E
        | cbn [app] in E; injection E as -> E]).
  destruct (foreign_prefix 10%N (67%N :: r) t _ v N E) as (w & ->).
  exists w. reflexivity.
Qed.

Lemma app_eq_self (x v : text) : x ++ v = x -> v = [].
Proof.
  intros E. apply (f_equal (@length _)) in E. rewrite length_app in E.
  destruct v; [reflexivity | cbn [length] in E; lia].
Qed.

(** In a text that does not hold the marker, followed by the marker, the
    scan finds the marker at the end. *)
Lemma find_marker_end (body : text) :
  contains (marker model) body = false ->
  find (marker model) (body ++ marker model) = Some (body, []).
Proof.
  intros A.
  destruct (find (marker model) (body ++ marker model)) as [[u v]|] eqn:F.
  2:{ exfalso. apply (find_None _ _ F body []). now rewrite app_nil_r. }
  pose proof (find_Some _ _ _ _ F) as E.
  apply app_eq_app in E as [l [[E1 E2] | [E1 E2]]].
  - destruct l as [|c l].
    + rewrite app_nil_r in E1. cbn [app] in E2. subst u.
      now rewrite (app_eq_self _ _ E2).
    + exfalso. symmetry in E2.
      destruct (marker_overlap (c :: l) v ltac:(discriminate) E2) as (x & X).
      rewrite X in E1.
      exact (proj1 (contains_false _ _) A u x E1).
  - destruct l as [|c l].
    + rewrite app_nil_r in E1. cbn [app] in E2. subst u.
      symmetry in E2. now rewrite (app_eq_self _ _ E2).
    + exfalso.
      pose proof (find_leftmost _ _ _ _ F body (c :: l) E1 ltac:(discriminate))
        as L.
      rewrite <- E2 in L.
      pose proof (proj2 (strip_prefix_Some (marker model) (marker model) [])
                    (eq_sym (app_nil_r _))) as S.
      congruence.
Qed.

Lemma replace_marker_end (body : text) :
  contains (marker model) body = false ->
  replace (body ++ marker model) (marker model) [] = body.
Proof.
  intros A. rewrite (replace_eqn (marker model) [] (marker_nonempty model)).
  rewrite (find_marker_end body A). cbn [app].
  change (replace [] (marker model) []) with ([] : text).
  apply app_nil_r.
Qed.

(** The resolve rewrites find the placeholder the insert rewrite wrote. *)
Lemma placeholder_found (content : text) :
  no_CR content = true ->
  blank (scrub_lines content) = false ->
  contains (marker model) (scrub_lines content) = false ->
  replace (strip (universal_newlines (insert_text content model)))
          (marker model) []
  = lstrip (scrub_lines content).
Proof.
  intros Hc B A. rewrite (inserted_reads_back content model Hc Hmodel).
  unfold insert_text.
  assert (S : all_space (scrub_lines content) = false).
  { destruct (all_space (scrub_lines content)) eqn:E; [|reflexivity].
    unfold blank in B. now rewrite (strip_all_space _ E) in B. }
  rewrite (strip_inserted model _ S). apply replace_marker_end.
  destruct (lstrip_decomp (scrub_lines content)) as (w0 & _ & E).
  rewrite E in A. rewrite <- (app_nil_r (lstrip (scrub_lines content))) in A.
  exact (contains_false_part _ w0 _ [] A).
Qed.

End MarkerAtEnd.

Lemma block_messages_parse (s : text) :
  blank s = false -> block_messages 0 (split s delimiter) = parse_content s.
Proof.
  intros B. destruct (contains delimiter s) eqn:C.
  - symmetry. apply parse_content_delimited, C.
  - rewrite (proj1 (single_user_message s C)).
    rewrite (split_absent _ _ C), block_messages_one, B. reflexivity.
Qed.

(** Leading white space changes neither the number of blocks nor their
    messages. *)
Lemma blocks_lstrip (s : text) :
  length (split (lstrip s) delimiter) = length (split s delimiter)
  /\ block_messages 0 (split (lstrip s) delimiter)
     = block_messages 0 (split s delimiter).
Proof.
  destruct (lstrip_decomp s) as (w0 & H0 & E).
  rewrite E at 2 4.
  rewrite (split_app_foreign_l delimiter delimiter_nonempty w0 (lstrip s)
             (space_foreign_to_delimiter w0 H0)).
  pose proof (split_nonempty delimiter (lstrip s)) as NE.
  destruct (split (lstrip s) delimiter) as [|first rest]; [congruence|].
  split; [reflexivity|]. symmetry. now apply block_messages_head_space.
Qed.

(** X16.  A successful run on a note whose scrubbed text is not blank and
    does not hold the marker, with a model name of one line, leaves no
    placeholder: the file is the scrubbed text without its leading white
    space, followed by the response block. *)
Theorem success_removes_placeholder (chat : ChatClient) (file_path : path)
    (model : option text) (raw response : text)
    (content := universal_newlines raw) (w : world)
    (H : files w file_path = ReadWrite raw)
    (Hsend : send_message chat (filter_messages (parse_content content))
                          (model_or_default model) 2000 system_message
             = Return response)
    (Hb : blank (scrub_lines content) = false)
    (Hm : contains (marker (model_or_default model)) (scrub_lines content)
          = false)
    (Hl : single_line (model_or_default model) = true) :
  rewrites (process_markdown (Return chat) file_path model) w file_path
           (Some response)
           (lstrip (scrub_lines content) ++ response_block response)
           [Truncate file_path; Write file_path (scrub_lines content);
            Write file_path (placeholder (model_or_default model));
            Truncate file_path;
            Write file_path (lstrip (scrub_lines content));
            Write file_path (response_block response)].
Proof.
  pose proof (driver_success_run chat file_path model raw response w
                H Hsend) as R.
  unfold resolveSuccess_text in R.
  now rewrite (placeholder_found _ Hl _ (universal_newlines_no_CR raw) Hb Hm)
    in R.
Qed.

Lemma success_removes_placeholder_witness :
  rewrites (process_markdown (Return (answering_client (str "Hi!")))
                             (str "note.md") None)
           (note_world (ReadWrite (str "cc" ++ nl ++ str " Hello" ++ nl)))
           (str "note.md") (Some (str "Hi!"))
           (str "Hello" ++ response_block (str "Hi!"))
           [Truncate (str "note.md"); Write (str "note.md") (str " Hello");
            Write (str "note.md") (placeholder default_model);
            Truncate (str "note.md"); Write (str "note.md") (str "Hello");
            Write (str "note.md") (response_block (str "Hi!"))].
Proof.
  exact (success_removes_placeholder (answering_client (str "Hi!"))
           (str "note.md") None (str "cc" ++ nl ++ str " Hello" ++ nl)
           (str "Hi!") (note_world _) eq_refl eq_refl eq_refl eq_refl
           eq_refl).
Defined.

(** X17.  Under the same conditions a run in which [send_message] raises
    leaves no placeholder either: the file is the scrubbed text without its
    leading white space, followed by the error block. *)
Theorem failure_removes_placeholder (chat : ChatClient) (file_path : path)
    (model : option text) (raw : text) (content := universal_newlines raw)
    (e : exn) (w : world)
    (H : files w file_path = ReadWrite raw)
    (Hsend : send_message chat (filter_messages (parse_content content))
                          (model_or_default model) 2000 system_message
             = Raise e)
    (Hb : blank (scrub_lines content) = false)
    (Hm : contains (marker (model_or_default model)) (scrub_lines content)
          = false)
    (Hl : single_line (model_or_default model) = true) :
  rewrites (process_markdown (Return chat) file_path model) w file_path None
           (lstrip (scrub_lines content) ++ error_block (exn_str e))
           [Truncate file_path; Write file_path (scrub_lines content);
            Write file_path (placeholder (model_or_default model));
            Truncate file_path;
            Write file_path (lstrip (scrub_lines content));
            Write file_path (error_block (exn_str e))].
Proof.
  pose proof (driver_failure_run chat file_path model raw e w H Hsend)
    as R.
  unfold resolveFailure_text in R.
  now rewrite (placeholder_found _ Hl _ (universal_newlines_no_CR raw) Hb Hm)
    in R.
Qed.

Lemma failure_removes_placeholder_witness :
  rewrites (process_markdown (Return (failing_client (str "timeout")))
                             (str "note.md") (Some (str "m")))
           (note_world (ReadWrite (str "Q1---A1---Q2")))
           (str "note.md") None
           (str "Q1---A1---Q2" ++ error_block (str "timeout"))
           [Truncate (str "note.md");
            Write (str "note.md") (str "Q1---A1---Q2");
            Write (str "note.md") (placeholder (str "m"));
            Truncate (str "note.md");
            Write (str "note.md") (str "Q1---A1---Q2");
            Write (str "note.md") (error_block (str "timeout"))].
Proof.
  exact (failure_removes_placeholder (failing_client (str "timeout"))
           (str "note.md") (Some (str "m")) (str "Q1---A1---Q2")
           (ClientError (str "timeout")) (note_world _) eq_refl eq_refl
           eq_refl eq_refl eq_refl).
Defined.

(** X18.  On a note whose scrubbed text is blank (an empty note, or one of
    control lines only) the placeholder is not removed: [strip] takes the
    blank lines that open the placeholder block, the marker is then not
    found, and after a successful run the file starts with the delimiter
    and the "Calling ..." line, followed by the response block. *)
Theorem placeholder_stays_on_blank_note (chat : ChatClient) (file_path : path)
    (model : option text) (raw response : text)
    (content := universal_newlines raw) (w : world)
    (H : files w file_path = ReadWrite raw)
    (Hsend : send_message chat (filter_messages (parse_content content))
                          (model_or_default model) 2000 system_message
             = Return response)
    (Hb : all_space (scrub_lines content) = true)
    (Hl : single_line (model_or_default model) = true) :
  rewrites (process_markdown (Return chat) file_path model) w file_path
           (Some response)
           (str "---" ++ nl ++ nl ++ str "Calling " ++ model_or_default model
                ++ str "..." ++ response_block response)
           [Truncate file_path; Write file_path (scrub_lines content);
            Write file_path (placeholder (model_or_default model));
            Truncate file_path;
            Write file_path
                  (str "---" ++ nl ++ nl ++ str "Calling "
                       ++ model_or_default model ++ str "...");
            Write file_path (response_block response)].
Proof.
  pose proof (driver_success_run chat file_path model raw response w
                H Hsend) as R.
  rewrite (inserted_reads_back _ _ (universal_newlines_no_CR raw) Hl) in R.
  unfold resolveSuccess_text, insert_text in R.
  rewrite (strip_inserted_blank _ _ Hb) in R.
  rewrite replace_absent in R.
  - now rewrite <- !app_assoc in R.
  - apply contains_short. unfold marker. rewrite !length_app. cbn. lia.
Qed.

Lemma placeholder_stays_on_blank_note_witness :
  rewrites (process_markdown (Return (answering_client (str "Hi!")))
                             (str "note.md") (Some (str "m")))
           (note_world (ReadWrite (str "cc" ++ nl)))
           (str "note.md") (Some (str "Hi!"))
           (str "---" ++ nl ++ nl ++ str "Calling " ++ str "m"
                ++ str "..." ++ response_block (str "Hi!"))
           [Truncate (str "note.md"); Write (str "note.md") [];
            Write (str "note.md") (placeholder (str "m"));
            Truncate (str "note.md");
            Write (str "note.md")
                  (str "---" ++ nl ++ nl ++ str "Calling " ++ str "m"
                       ++ str "...");
            Write (str "note.md") (response_block (str "Hi!"))].
Proof.
  exact (placeholder_stays_on_blank_note (answering_client (str "Hi!"))
           (str "note.md") (Some (str "m")) (str "cc" ++ nl) (str "Hi!")
           (note_world _) eq_refl eq_refl eq_refl eq_refl).
Defined.

(** * Resolving when the marker is absent *)

(** What the second of two failure rewrites reads and strips. *)
Lemma strip_read_error_block (s e : text) :
  no_CR s = true ->
  strip (universal_newlines (strip s ++ error_block e))
  = (match strip s with [] => [] | _ :: _ => strip s ++ nl ++ nl end)
    ++ str "---" ++ nl ++ nl ++ str "Error: " ++ universal_newlines (e ++ nl)
    ++ nl ++ str "---".
Proof.
  intros Hs.
  assert (E : universal_newlines (strip s ++ error_block e)
              = strip s ++ nl ++ nl ++ str "---" ++ nl ++ nl ++ str "Error: "
                  ++ universal_newlines (e ++ nl) ++ nl ++ str "---" ++ nl
                  ++ nl).
  { unfold error_block.
    replace (strip s ++ nl ++ nl ++ str "---" ++ nl ++ nl ++ str "Error: "
               ++ e ++ nl ++ nl ++ str "---" ++ nl ++ nl)
      with ((strip s ++ nl ++ nl ++ str "---" ++ nl ++ nl ++ str "Error: ")
              ++ e ++ LF :: (nl ++ str "---" ++ nl ++ nl))
      by (now rewrite <- !app_assoc).
    rewrite universal_newlines_app
      by (rewrite no_CR_app, (no_CR_strip s Hs); reflexivity).
    rewrite universal_newlines_app_LF, <- !app_assoc. reflexivity. }
  rewrite E. destruct (reads_back_before_LF e) as (r & -> & _).
  replace (strip s ++ nl ++ nl ++ str "---" ++ nl ++ nl ++ str "Error: "
             ++ (r ++ nl) ++ nl ++ str "---" ++ nl ++ nl)
    with (strip s ++ error_block r)
    by (unfold error_block; now rewrite <- !app_assoc).
  rewrite strip_after_error_block. now rewrite <- !app_assoc.
Qed.

(** C4, as amended.  When the marker is absent from the content that is
    read, each resolve rewrite returns normally, writes the stripped content
    back with nothing removed and appends its block: two line feeds, the
    delimiter, two line feeds, the response (or "Error: " and the error
    text), two line feeds, the delimiter, two line feeds.  Two failure
    rewrites in a row, the marker being absent as well from what the first
    one left, leave the stripped content, the first error block with its
    text as it reads back and without the two line feeds that closed it, and
    the second error block. *)
Theorem resolve_marker_absent (p : path) (model response e1 e2 raw : text)
    (content := universal_newlines raw) (w : world)
    (H : files w p = ReadWrite raw)
    (A1 : contains (marker model) content = false) :
  rewrites (resolveSuccess p model response) w p tt
           (strip content ++ nl ++ nl ++ str "---" ++ nl ++ nl ++ response
                  ++ nl ++ nl ++ str "---" ++ nl ++ nl)
           [Truncate p; Write p (strip content);
            Write p (nl ++ nl ++ str "---" ++ nl ++ nl ++ response ++ nl ++ nl
                        ++ str "---" ++ nl ++ nl)]
  /\ rewrites (resolveFailure p model e1) w p tt
              (strip content ++ nl ++ nl ++ str "---" ++ nl ++ nl
                     ++ str "Error: " ++ e1 ++ nl ++ nl ++ str "---" ++ nl
                     ++ nl)
              [Truncate p; Write p (strip content);
               Write p (nl ++ nl ++ str "---" ++ nl ++ nl ++ str "Error: "
                           ++ e1 ++ nl ++ nl ++ str "---" ++ nl ++ nl)]
  /\ (contains (marker model)
        (universal_newlines
           (strip content ++ nl ++ nl ++ str "---" ++ nl ++ nl
                  ++ str "Error: " ++ e1 ++ nl ++ nl ++ str "---" ++ nl ++ nl))
      = false ->
      let first :=
        (match strip content with
         | [] => []
         | _ :: _ => strip content ++ nl ++ nl
         end)
        ++ str "---" ++ nl ++ nl ++ str "Error: "
        ++ universal_newlines (e1 ++ nl) ++ nl ++ str "---" in
      rewrites (resolveFailure p model e1 ;;; resolveFailure p model e2)
               w p tt
               (first ++ nl ++ nl ++ str "---" ++ nl ++ nl ++ str "Error: "
                      ++ e2 ++ nl ++ nl ++ str "---" ++ nl ++ nl)
               [Truncate p; Write p (strip content);
                Write p (nl ++ nl ++ str "---" ++ nl ++ nl ++ str "Error: "
                            ++ e1 ++ nl ++ nl ++ str "---" ++ nl ++ nl);
                Truncate p; Write p first;
                Write p (nl ++ nl ++ str "---" ++ nl ++ nl ++ str "Error: "
                            ++ e2 ++ nl ++ nl ++ str "---" ++ nl ++ nl)]).
Proof.
  subst content.
  pose proof (contains_false_strip _ _ A1) as S1.
  pose proof (replace_absent _ [] _ S1) as R1.
  pose proof (resolveSuccess_run p model response raw w H) as RS.
  pose proof (resolveFailure_run p model e1 raw w H) as RF.
  unfold resolveSuccess_text in RS. unfold resolveFailure_text in RF.
  rewrite R1 in RS, RF.
  split; [exact RS|]. split; [exact RF|].
  intros A2 first.
  destruct RF as (w1 & E1 & F1 & O1 & J1 & C1).
  pose proof (resolveFailure_run p model e2 _ w1 F1) as RF2.
  unfold resolveFailure_text in RF2.
  change (contains (marker model)
            (universal_newlines
               (strip (universal_newlines raw) ++ error_block e1)) = false)
    in A2.
  rewrite (replace_absent _ [] _ (contains_false_strip _ _ A2)) in RF2.
  rewrite (strip_read_error_block _ e1 (universal_newlines_no_CR raw))
    in RF2.
  fold first in RF2.
  destruct RF2 as (w2 & E2 & F2 & O2 & J2 & C2).
  exists w2. unfold bind. rewrite E1, E2.
  split; [reflexivity|]. split; [|split; [|split]].
  - exact F2.
  - intros q Hq. now rewrite (O2 q Hq), (O1 q Hq).
  - rewrite J2, J1, <- app_assoc. reflexivity.
  - now rewrite C2.
Qed.

Lemma resolve_marker_absent_witness :
  rewrites (resolveFailure (str "note.md") (str "m") (str "boom") ;;;
            resolveFailure (str "note.md") (str "m") (str "bang"))
           (note_world (ReadWrite (str " Q1 " ++ nl)))
           (str "note.md") tt
           (str "Q1" ++ nl ++ nl ++ str "---" ++ nl ++ nl ++ str "Error: boom"
                ++ nl ++ nl ++ str "---" ++ nl ++ nl ++ str "---" ++ nl ++ nl
                ++ str "Error: bang" ++ nl ++ nl ++ str "---" ++ nl ++ nl)
           [Truncate (str "note.md"); Write (str "note.md") (str "Q1");
            Write (str "note.md")
                  (nl ++ nl ++ str "---" ++ nl ++ nl ++ str "Error: boom"
                      ++ nl ++ nl ++ str "---" ++ nl ++ nl);
            Truncate (str "note.md");
            Write (str "note.md")
                  (str "Q1" ++ nl ++ nl ++ str "---" ++ nl ++ nl
                       ++ str "Error: boom" ++ nl ++ nl ++ str "---");
            Write (str "note.md")
                  (nl ++ nl ++ str "---" ++ nl ++ nl ++ str "Error: bang"
                      ++ nl ++ nl ++ str "---" ++ nl ++ nl)].
Proof.
  exact (proj2 (proj2
    (resolve_marker_absent (str "note.md") (str "m") (str "Hi") (str "boom")
       (str "bang") (str " Q1 " ++ nl) (note_world _)
       eq_refl eq_refl)) eq_refl).
Defined.

(** C4, as stated, fails.  The marker is absent from the note, yet the
    second of two failure rewrites changes the first error block: it removes
    the marker text that the first error message held, and a carriage
    return in the first error message reads back as a line feed. *)
Lemma resolve_marker_absent_counterexample :
  let twice := fun e1 =>
    files (snd ((resolveFailure (str "note.md") (str "m") e1 ;;;
                 resolveFailure (str "note.md") (str "m") (str "bang"))
                  (note_world (ReadWrite (str "Q1"))))) (str "note.md") in
  contains (marker (str "m")) (str "Q1") = false
  /\ twice (str "boom" ++ marker (str "m") ++ str "!")
     = ReadWrite (str "Q1" ++ nl ++ nl ++ str "---" ++ nl ++ nl
                      ++ str "Error: boom!" ++ nl ++ nl ++ str "---" ++ nl
                      ++ nl ++ str "---" ++ nl ++ nl ++ str "Error: bang"
                      ++ nl ++ nl ++ str "---" ++ nl ++ nl)
  /\ twice (str "a" ++ [CR] ++ str "b")
     = ReadWrite (str "Q1" ++ nl ++ nl ++ str "---" ++ nl ++ nl
                      ++ str "Error: a" ++ nl ++ str "b" ++ nl ++ nl
                      ++ str "---" ++ nl ++ nl ++ str "---" ++ nl ++ nl
                      ++ str "Error: bang" ++ nl ++ nl ++ str "---" ++ nl
                      ++ nl).
Proof. repeat split. Qed.

(** * Parsing after a successful run *)

Lemma delimiter_without_LF : ~ In LF delimiter.
Proof. cbn. intuition discriminate. Qed.

(** The file after the success rewrite reads back as the prior text and
    the block of a response [r]: the response as it reads back, up to a line
    feed at its end. *)
Lemma response_block_reads_back (prior response : text) :
  no_CR prior = true ->
  exists r,
    universal_newlines (prior ++ response_block response)
    = prior ++ response_block r
    /\ strip r = strip (universal_newlines response)
    /\ (contains delimiter response = false -> contains delimiter r = false).
Proof.
  intros Hp. destruct (reads_back_before_LF response) as (r & E & S & C).
  exists r. split; [|split; [exact S|]].
  - unfold response_block.
    replace (prior ++ nl ++ nl ++ str "---" ++ nl ++ nl ++ response ++ nl
               ++ nl ++ str "---" ++ nl ++ nl)
      with ((prior ++ nl ++ nl ++ str "---" ++ nl ++ nl)
              ++ response ++ LF :: (nl ++ str "---" ++ nl ++ nl))
      by (now rewrite <- !app_assoc).
    rewrite universal_newlines_app by (rewrite no_CR_app, Hp; reflexivity).
    rewrite universal_newlines_app_LF, E, <- !app_assoc. reflexivity.
  - intros D. apply C.
    exact (contains_universal_newlines delimiter response
             delimiter_without_LF delimiter_nonempty D).
Qed.

Lemma parse_after_response (prior response : text) :
  no_CR prior = true ->
  contains delimiter response = false ->
  blank response = false ->
  parse_content (universal_newlines (prior ++ response_block response))
  = block_messages 0 (split prior delimiter)
    ++ [Message (role_of_index (length (split prior delimiter)))
                (strip (universal_newlines response))].
Proof.
  intros Hp Hd Hb.
  destruct (response_block_reads_back prior response Hp) as (r & -> & S & C).
  rewrite parse_content_response_block; [now rewrite S | exact (C Hd) |].
  unfold blank. rewrite S. fold (blank (universal_newlines response)).
  now rewrite blank_universal_newlines.
Qed.

(** A successful run, and what the file it leaves parses to. *)
Lemma success_then_parse (chat : ChatClient) (file_path : path)
    (model : option text) (raw response : text)
    (content := universal_newlines raw) (w : world) :
  files w file_path = ReadWrite raw ->
  send_message chat (filter_messages (parse_content content))
               (model_or_default model) 2000 system_message
  = Return response ->
  blank (scrub_lines content) = false ->
  contains (marker (model_or_default model)) (scrub_lines content) = false ->
  single_line (model_or_default model) = true ->
  contains delimiter response = false ->
  blank response = false ->
  exists w',
    process_markdown (Return chat) file_path model w
    = (Return (Some response), w')
    /\ files w' file_path
       = ReadWrite (lstrip (scrub_lines content) ++ response_block response)
    /\ parse_content
         (universal_newlines
            (lstrip (scrub_lines content) ++ response_block response))
       = parse_content (scrub_lines content)
         ++ [Message (role_of_index
                        (length (split (scrub_lines content) delimiter)))
                     (strip (universal_newlines response))].
Proof.
  intros H Hsend Hb Hm Hl Hd Hr. subst content.
  pose proof (driver_success_run chat file_path model raw response w
                H Hsend) as (w' & E & F & _).
  unfold resolveSuccess_text in F.
  rewrite (placeholder_found _ Hl _ (universal_newlines_no_CR raw) Hb Hm)
    in F.
  exists w'. split; [exact E|]. split; [exact F|].
  rewrite (parse_after_response _ _
             (no_CR_lstrip _ (no_CR_scrub_lines _
                                (universal_newlines_no_CR raw))) Hd Hr).
  destruct (blocks_lstrip (scrub_lines (universal_newlines raw))) as [-> ->].
  now rewrite (block_messages_parse _ Hb).
Qed.





(** The scenario of a control line that makes up the last block: the line
    scrub and the turn filter agree, and the response comes out as one more
    [assistant] message. *)
Lemma control_block_scenario :
  let note := str "Q1" ++ nl ++ str "---" ++ nl ++ str "A1" ++ nl
                  ++ str "---" ++ nl ++ str "cc" in
  filter_messages (parse_content note)
  = [Message user (str "Q1"); Message assistant (str "A1")]
  /\ fst (parse_markdown_file (str "note.md")
            (snd (process_markdown (Return (answering_client (str "Hi!")))
                    (str "note.md") (Some (str "m"))
                    (note_world (ReadWrite note)))))
     = Return (Some [Message user (str "Q1"); Message assistant (str "A1");
                     Message assistant (str "Hi!")]).
Proof. split; reflexivity. Qed.




(** X19.  After a successful run under the conditions of X16, with a
    response that is not blank and holds no delimiter, the file reads back
    and parses to the messages of the scrubbed text followed by one message
    with the response as it reads back, stripped; its role is [assistant]
    when the scrubbed text has an odd number of blocks and [user] when it
    has an even number. *)
Theorem parse_after_success (chat : ChatClient) (file_path : path)
    (model : option text) (raw response : text)
    (content := universal_newlines raw) (w : world)
    (H : files w file_path = ReadWrite raw)
    (Hsend : send_message chat (filter_messages (parse_content content))
                          (model_or_default model) 2000 system_message
             = Return response)
    (Hb : blank (scrub_lines content) = false)
    (Hm : contains (marker (model_or_default model)) (scrub_lines content)
          = false)
    (Hl : single_line (model_or_default model) = true)
    (Hd : contains delimiter response = false)
    (Hr : blank response = false) :
  exists w' after,
    process_markdown (Return chat) file_path model w
    = (Return (Some response), w')
    /\ files w' file_path = ReadWrite after
    /\ parse_content (universal_newlines after)
       = parse_content (scrub_lines content)
         ++ [Message (role_of_index
                        (length (split (scrub_lines content) delimiter)))
                     (strip (universal_newlines response))].
Proof.
  destruct (success_then_parse chat file_path model raw response w
              H Hsend Hb Hm Hl Hd Hr) as (w' & E & F & P).
  exists w', (lstrip (scrub_lines content) ++ response_block response).
  split; [exact E|]. split; [exact F | exact P].
Qed.

Lemma parse_after_success_witness :
  exists w' after,
    process_markdown (Return (answering_client (str " Hi!" ++ [CR])))
                     (str "note.md") (Some (str "m"))
                     (note_world (ReadWrite (str "Q1---A1---Q2" ++ nl
                                                 ++ str "c0")))
    = (Return (Some (str " Hi!" ++ [CR])), w')
    /\ files w' (str "note.md") = ReadWrite after
    /\ parse_content (universal_newlines after)
       = [Message user (str "Q1"); Message assistant (str "A1");
          Message user (str "Q2")]
         ++ [Message assistant (str "Hi!")].
Proof.
  exact (parse_after_success (answering_client (str " Hi!" ++ [CR]))
           (str "note.md") (Some (str "m"))
           (str "Q1---A1---Q2" ++ nl ++ str "c0") (str " Hi!" ++ [CR])
           (note_world _) eq_refl eq_refl eq_refl eq_refl eq_refl eq_refl
           eq_refl).
Defined.

(** * The random phrase *)

Section Phrases.

(** What follows the boundary that starts with [c]. *)
Lemma splitlines_break (c : char) (s : text) :
  is_linebreak c = true ->
  exists skipped rest,
    s = skipped ++ rest /\ splitlines (c :: s) = [] :: splitlines rest
    /\ (skipped = [] \/ skipped = [10%N]).
Proof.
  intros H. cbn [splitlines]. rewrite H.
  destruct (char_eqb c 13%N); [|exists [], s; auto].
  destruct s as [|d s]; [exists [], []; auto|].
  destruct (char_eqb d 10%N) eqn:E; [|exists [], (d :: s); auto].
  apply char_eqb_eq in E. subst d. exists [10%N], s. auto.
Qed.

Lemma splitlines_nil (s : text) : splitlines s = [] <-> s = [].
Proof.
  split; [|intros ->; reflexivity].
  destruct s as [|c s]; [reflexivity|]. cbn [splitlines].
  destruct (is_linebreak c); [discriminate|].
  destruct (splitlines s); discriminate.
Qed.

(** The first line is the start of the text, up to the first boundary. *)
Lemma splitlines_head (s line : text) (lines : list text) :
  splitlines s = line :: lines ->
  unbroken line = true /\ exists after, s = line ++ after.
Proof.
  revert line lines; induction s as [|c s IH]; intros line lines;
    [discriminate|].
  cbn [splitlines]. destruct (is_linebreak c) eqn:B.
  - intros [= <- _]. split; [reflexivity|]. exists (c :: s). reflexivity.
  - destruct (splitlines s) as [|l0 ls] eqn:E.
    + intros [= <- <-]. apply splitlines_nil in E. subst s.
      split; [unfold unbroken; cbn; now rewrite B | exists []; reflexivity].
    + intros [= <- <-]. destruct (IH l0 ls eq_refl) as (U & after & ->).
      split; [unfold unbroken; cbn; now rewrite B | exists after; reflexivity].
Qed.

(** Every line is a part of the text without a boundary in it. *)
Lemma splitlines_In (s line : text) :
  In line (splitlines s) ->
  unbroken line = true
  /\ exists before after, s = before ++ line ++ after.
Proof.
  revert line; induction s as [|c s IH]; intros line; [intros []|].
  destruct (is_linebreak c) eqn:B.
  - destruct (splitlines_break c s B) as (skipped & rest & Es & -> & K).
    intros [<- | I].
    + split; [reflexivity|]. exists [], (c :: s). reflexivity.
    + assert (I' : In line (splitlines s)).
      { destruct K as [-> | ->]; cbn [app] in Es; subst s; [exact I|].
        cbn [splitlines].
        change (is_linebreak 10%N) with true. cbv iota.
        change (char_eqb 10%N 13%N) with false. cbv iota.
        right. exact I. }
      destruct (IH line I') as (U & before & after & ->).
      split; [exact U|]. exists (c :: before), after. reflexivity.
  - cbn [splitlines]. rewrite B.
    destruct (splitlines s) as [|l0 ls] eqn:E.
    + intros [<- | []]. apply splitlines_nil in E. subst s.
      split; [unfold unbroken; cbn; now rewrite B|].
      exists [], []. reflexivity.
    + intros [<- | I].
      * destruct (splitlines_head s l0 ls E) as (U & after & ->).
        split; [unfold unbroken; cbn; now rewrite B|].
        exists [], after. reflexivity.
      * destruct (IH line (or_intror I)) as (U & before & after & ->).
        split; [exact U|]. exists (c :: before), after. reflexivity.
Qed.

End Phrases.

(** X20.  When the phrase file can be read and is not empty, and the random
    source draws an index below the number of lines, [get_random_phrase]
    returns one of the lines of the file: a part of its content with no
    line boundary in it.  It changes nothing in the world. *)
Theorem get_random_phrase_returns_a_line (locate : path -> path)
    (randbelow : nat -> nat) (file_path : option path) (raw : text)
    (data := universal_newlines raw) (w : world)
    (H : files w (locate (match file_path with
                          | None => default_phrases
                          | Some p => p
                          end)) = ReadOnly raw
         \/ files w (locate (match file_path with
                             | None => default_phrases
                             | Some p => p
                             end)) = ReadWrite raw)
    (Hdata : data <> [])
    (Hrand : randbelow (length (splitlines data)) < length (splitlines data)) :
  exists phrase,
    get_random_phrase locate randbelow file_path w = (Returned phrase, w)
    /\ nth_error (splitlines data) (randbelow (length (splitlines data)))
       = Some phrase
    /\ unbroken phrase = true
    /\ exists before after, data = before ++ phrase ++ after.
Proof.
  assert (R : read_r (locate (match file_path with
                              | None => default_phrases
                              | Some p => p
                              end)) w = (Return data, w))
    by (unfold read_r; destruct H as [-> | ->]; reflexivity).
  clear H. clearbody data.
  set (n := randbelow (length (splitlines data))) in *.
  exists (nth n (splitlines data) []).
  assert (N : nth_error (splitlines data) n = Some (nth n (splitlines data) []))
    by (apply nth_error_nth'; exact Hrand).
  split; [|split; [exact N|]].
  - unfold get_random_phrase. rewrite R.
    assert (E : splitlines data <> [])
      by (intros E; apply splitlines_nil in E; contradiction).
    fold n. destruct (splitlines data); congruence.
  - apply splitlines_In. exact (nth_error_In _ _ N).
Qed.

Lemma get_random_phrase_returns_a_line_witness :
  exists phrase,
    get_random_phrase (fun p => str "/opt/chat/" ++ p) (fun n => n - 1) None
      (World (fun q => if text_eqb q (str "/opt/chat/obsidian_note_chat_phrases.txt")
                       then ReadOnly (str "Thinking" ++ nl ++ str "Hm" ++ nl)
                       else Missing) [] [])
    = (Returned phrase,
       World (fun q => if text_eqb q (str "/opt/chat/obsidian_note_chat_phrases.txt")
                       then ReadOnly (str "Thinking" ++ nl ++ str "Hm" ++ nl)
                       else Missing) [] [])
    /\ nth_error (splitlines (str "Thinking" ++ nl ++ str "Hm" ++ nl)) 1
       = Some phrase
    /\ unbroken phrase = true
    /\ exists before after,
         str "Thinking" ++ nl ++ str "Hm" ++ nl = before ++ phrase ++ after.
Proof.
  exact (get_random_phrase_returns_a_line (fun p => str "/opt/chat/" ++ p)
           (fun n => n - 1) None (str "Thinking" ++ nl ++ str "Hm" ++ nl)
           (World _ [] []) (or_introl eq_refl) ltac:(discriminate)
           ltac:(cbn; lia)).
Defined.

(** X21.  [get_random_phrase] catches nothing: on a file that cannot be
    read the [FileNotFoundError] of [open] leaves it, and on a readable file
    it raises [ValueError] exactly when the file is empty (a file of blank
    lines only is not empty and yields an empty phrase). *)
Theorem get_random_phrase_raises (locate : path -> path)
    (randbelow : nat -> nat) (file_path : option path) (w : world) :
  let located := locate (match file_path with
                         | None => default_phrases
                         | Some p => p
                         end) in
  (files w located = Missing ->
   get_random_phrase locate randbelow file_path w
   = (Raised (FileNotFoundError located), w))
  /\ (forall raw,
        files w located = ReadOnly raw \/ files w located = ReadWrite raw ->
        (get_random_phrase locate randbelow file_path w
         = (RaisedValueError
              (str "Sample larger than population or is negative"), w)
         <-> raw = []))
  /\ get_random_phrase locate (fun _ => 0) (Some (str "p"))
       (World (fun _ => ReadOnly (nl ++ nl)) [] [])
     = (Returned [], World (fun _ => ReadOnly (nl ++ nl)) [] []).
Proof.
  intros located. split; [|split; [|reflexivity]].
  - intros H. unfold get_random_phrase, read_r. fold located. now rewrite H.
  - intros raw H. unfold get_random_phrase, read_r. fold located.
    assert (E : splitlines (universal_newlines raw) = [] <-> raw = []).
    { rewrite splitlines_nil. split; [|intros ->; reflexivity].
      destruct raw as [|c raw]; [reflexivity|]. cbn [universal_newlines].
      destruct (char_eqb c CR); discriminate. }
    destruct H as [-> | ->];
      destruct (splitlines (universal_newlines raw)) as [|l ls];
      (split; [intros X; try discriminate X; now apply E
              | intros X; apply E in X; try discriminate X; reflexivity]).
Qed.
